(** * ParameterMap: a shallow embedding of [include/ParameterMap.h]

    The class template [qbouts::ParameterMap<PARAMETERS...>] keeps one
    [std::optional] per declared parameter and one name hash per
    parameter.  Its member functions are embedded as computations in a
    small state-and-exception monad; the template parameter pack is a
    section variable, and the parts of the C++ language and standard
    library the header relies on (type traits, implicit conversions,
    the assignment to a [std::optional], [std::hash]) are collected in a
    type class. *)

From Stdlib Require Import String Ascii NArith ZArith DecimalString.
From stdpp Require Import base list.

Set Default Proof Using "Type".

(** ** Outcomes of a call *)

(** The exception types thrown by the header, and
    [std::bad_optional_access], which [std::optional::value] throws. *)
Inductive exn : Type :=
| out_of_range
| invalid_argument
| runtime_error
| bad_optional_access.

(** A call returns, throws, is rejected by the compiler (a [requires]
    clause that fails, a [std::get] beyond the tuple, an assignment
    between unrelated types), or has undefined behaviour (a null pointer
    or an empty optional dereferenced). *)
Inductive outcome (A : Type) : Type :=
| Returns (a : A)
| Throws (e : exn)
| IllFormed
| Undefined.
Arguments Returns {A} a.
Arguments Throws {A} e.
Arguments IllFormed {A}.
Arguments Undefined {A}.

(** ** The monad: state that survives an exception *)

Definition M (St A : Type) : Type := St -> outcome A * St.

Definition ret {St A} (a : A) : M St A := fun s => (Returns a, s).

Definition bind {St A B} (m : M St A) (k : A -> M St B) : M St B :=
  fun s =>
    match m s with
    | (Returns a, s') => k a s'
    | (Throws e, s') => (Throws e, s')
    | (IllFormed, s') => (IllFormed, s')
    | (Undefined, s') => (Undefined, s')
    end.

Definition throw {St A} (e : exn) : M St A := fun s => (Throws e, s).
Definition ill_formed {St A} : M St A := fun s => (IllFormed, s).
Definition undefined {St A} : M St A := fun s => (Undefined, s).
Definition get_state {St} : M St St := fun s => (Returns s, s).
Definition put_state {St} (s : St) : M St unit := fun _ => (Returns tt, s).

Declare Scope cxx_scope.
Delimit Scope cxx_scope with cxx.
Notation "x <- m ;; k" := (bind m (fun x => k))
  (at level 100, m at next level, right associativity) : cxx_scope.
Notation "m ;; k" := (bind m (fun _ => k))
  (at level 100, right associativity) : cxx_scope.
Open Scope cxx_scope.

(** A block with local variables: the state is the pair of the locals
    and of the enclosing state. *)
Definition on_fst {L St A} (m : M L A) : M (L * St) A :=
  fun '(l, s) => let '(r, l') := m l in (r, (l', s)).

Definition on_snd {L St A} (m : M St A) : M (L * St) A :=
  fun '(l, s) => let '(r, s') := m s in (r, (l, s')).

(** Runs [m] with a local initialised to [l0]; the local's final value
    is handed back when [m] returns and is lost when it throws. *)
Definition with_local {L St} (l0 : L) (m : M (L * St) unit) : M St L :=
  fun s =>
    match m (l0, s) with
    | (Returns _, (l, s')) => (Returns l, s')
    | (Throws e, (_, s')) => (Throws e, s')
    | (IllFormed, (_, s')) => (IllFormed, s')
    | (Undefined, (_, s')) => (Undefined, s')
    end.

(** [b && m], evaluating [m] only when [b] holds. *)
Definition and_then {St} (b : bool) (m : M St bool) : M St bool :=
  if b then m else ret false.

(** ** [detail::static_for] *)

(** [static_for<First, Last>(f)]: unless [First < Last] fails, call
    [f(First)] and continue with [static_for<First + 1, Last>(f)].  The
    recursion is on a count that the definition below sets to
    [Last - First]; [static_for_unfold] shows that this is enough. *)
Fixpoint static_for_rec {St} (count First Last : nat) (f : nat -> M St unit)
  : M St unit :=
  match count with
  | O => ret tt
  | S count' =>
      if First <? Last
      then f First ;; static_for_rec count' (S First) Last f
      else ret tt
  end.

Definition static_for {St} (First Last : nat) (f : nat -> M St unit) : M St unit :=
  static_for_rec (Last - First) First Last f.

(** ** [detail::apply_optionals] *)

(** [std::invoke(f, *std::get<I>(t)...)]: every element of the tuple is
    dereferenced, which is undefined on an empty optional. *)
Definition apply_optionals_impl {St A R} (f : list A -> M St R)
    (t : list (option A)) (I : list nat) : M St R :=
  match mapM (fun i => mjoin (t !! i)) I with
  | Some args => f args
  | None => undefined
  end.

(** The index sequence is [std::make_index_sequence<std::tuple_size_v<Tuple>>]. *)
Definition apply_optionals {St A R} (f : list A -> M St R)
    (t : list (option A)) : M St R :=
  apply_optionals_impl f t (seq 0 (length t)).

(** ** The language and library the header builds on *)

Inductive ref_qualifier : Type := no_ref | lvalue_ref | rvalue_ref.

Class Cxx : Type := {
  (** object types without cv-qualifiers and references *)
  base_type : Type;
  (** [std::is_same_v] *)
  is_same :: EqDecision base_type;
  (** [std::is_convertible_v<From, To>] *)
  is_convertible : base_type -> base_type -> bool;
  (** run-time values, each of one type *)
  value : Type;
  type_of : value -> base_type;
  (** the implicit conversion of a value to the type [To] *)
  convert : base_type -> value -> value;
  convert_same : forall v, convert (type_of v) v = v;
  convert_type : forall To v,
    is_convertible (type_of v) To = true -> type_of (convert To v) = To;
  (** the assignment [opt = v] to a [std::optional<To>]: [None] where no
      [operator=] of the optional accepts [v], otherwise what the optional
      holds afterwards: a value, or nothing after [operator=(nullopt_t)]
      or the assignment of a disengaged optional *)
  optional_assign : base_type -> value -> option (option value);
  (** a value that converts to [To] can be assigned; the optional then
      holds the converted value unless the assignment has emptied it *)
  optional_assign_convertible : forall To v,
    is_convertible (type_of v) To = true ->
    optional_assign To v = Some (Some (convert To v)) \/
    optional_assign To v = Some None;
  optional_assign_type : forall To v x,
    optional_assign To v = Some (Some x) -> type_of x = To;
  (** [std::hash<std::string>] and [std::hash<std::string_view>], which
      agree on equal character sequences *)
  std_hash : string -> N;
}.

Section ParameterMap.
Context `{Cxx}.

Record cpp_type : Type := {
  is_const : bool;
  is_volatile : bool;
  reference : ref_qualifier;
  unqualified : base_type;
}.

(** [std::remove_cv_t<std::remove_reference_t<T>>] *)
Definition remove_cv_ref (T : cpp_type) : base_type := unqualified T.

(** The type deduced for a forwarding reference [T &&value]; only its
    [remove_cv_ref] is ever used. *)
Definition deduced (v : value) : cpp_type :=
  {| is_const := false; is_volatile := false; reference := lvalue_ref;
     unqualified := type_of v |}.

(** [template <typename... PARAMETERS> class ParameterMap]; indices of
    type [size_t] and the [int] bounds of [static_for] are natural
    numbers, on which the header does no arithmetic but [First + 1]. *)
Variable PARAMETERS : list cpp_type.

Definition n_parameters : nat := length PARAMETERS.

Record ParameterMap : Type := {
  m_parameter_name_hashes : list N;
  m_stored_values : list (option value);
}.

(** What the types [std::array<size_t, n_parameters>] and
    [std::tuple<std::optional<...>...>] guarantee. *)
Definition wf (pm : ParameterMap) : Prop :=
  length (m_parameter_name_hashes pm) = n_parameters /\
  length (m_stored_values pm) = n_parameters.

(** The constructor; [requires(sizeof...(PARAMETERS) == sizeof...(PARAM_NAMES))]. *)
Definition construct (names : list string) : outcome ParameterMap :=
  if length names =? n_parameters
  then Returns {| m_parameter_name_hashes := std_hash <$> names;
                  m_stored_values := replicate n_parameters None |}
  else IllFormed.

Definition size : nat := n_parameters.

(** [std::get<INDEX>(m_stored_values)], read and assigned. *)
Definition std_get (INDEX : nat) : M ParameterMap (option value) :=
  fun pm =>
    match m_stored_values pm !! INDEX with
    | Some o => (Returns o, pm)
    | None => (IllFormed, pm)
    end.

Definition std_get_assign (INDEX : nat) (o : option value) : M ParameterMap unit :=
  fun pm =>
    if INDEX <? length (m_stored_values pm)
    then (Returns tt,
          {| m_parameter_name_hashes := m_parameter_name_hashes pm;
             m_stored_values := <[INDEX := o]> (m_stored_values pm) |})
    else (IllFormed, pm).

(** [std::optional::has_value] and [std::optional::value] *)
Definition has_value (o : option value) : bool :=
  match o with Some _ => true | None => false end.

Definition optional_value {St} (o : option value) : M St value :=
  match o with Some v => ret v | None => throw bad_optional_access end.

(** *** Private members *)

Definition throw_if_index_out_of_range {St} (index : nat) : M St unit :=
  if n_parameters <=? index then throw out_of_range else ret tt.

Definition is_set_at (INDEX : nat) : M ParameterMap bool :=
  if INDEX <? n_parameters
  then o <- std_get INDEX ;; ret (has_value o)
  else ill_formed.

Definition throw_if_no_value_stored_for_index (INDEX : nat) : M ParameterMap unit :=
  b <- is_set_at INDEX ;;
  if negb b then throw runtime_error else ret tt.

(** The compile-time predicates; [None] where [std::get<INDEX>] does not
    compile. *)
Definition TruePredicate (index : nat) : option bool := Some true.

Definition BaseTypeAt (INDEX : nat) : option base_type :=
  remove_cv_ref <$> PARAMETERS !! INDEX.

Definition IsSettableFrom (TYPE : cpp_type) (index : nat) : option bool :=
  is_convertible (remove_cv_ref TYPE) <$> BaseTypeAt index.

Definition IsGettableAs (TYPE : cpp_type) (index : nat) : option bool :=
  (fun U => bool_decide (remove_cv_ref TYPE = U)) <$> BaseTypeAt index.

(** The lambda that [pass_first_index_matching_predicate_to] hands to
    [static_for]; the local [found] is the first component of its state.
    The branch under [if constexpr] exists only where the compile-time
    predicate holds. *)
Definition visit_index {St} (CT_PREDICATE : nat -> option bool)
    (runtime_predicate : nat -> M St bool) (func : nat -> M St unit)
    (i : nat) : M (bool * St) unit :=
  match CT_PREDICATE i with
  | None => ill_formed
  | Some true =>
      found <- on_fst get_state ;;
      b <- and_then (negb found) (on_snd (runtime_predicate i)) ;;
      if b
      then on_fst (put_state true) ;; on_snd (func i)
      else ret tt
  | Some false => ret tt
  end.

Definition pass_first_index_matching_predicate_to {St}
    (CT_PREDICATE : nat -> option bool)
    (runtime_predicate : nat -> M St bool) (func : nat -> M St unit) : M St unit :=
  found <-
    with_local false
      (static_for 0 n_parameters
         (visit_index CT_PREDICATE runtime_predicate func)) ;;
  if negb found then throw invalid_argument else ret tt.

Definition ensure_name_matches (name : string) : nat -> M ParameterMap bool :=
  let name_hash := std_hash name in
  fun i =>
    pm <- get_state ;;
    match m_parameter_name_hashes pm !! i with
    | Some h => ret (h =? name_hash)%N
    | None => throw out_of_range
    end.

(** *** set *)

(** [set<INDEX>(value)]: the assignment of the argument to the optional
    of the slot, with no check of its own; what the optional holds
    afterwards is for [std::optional::operator=] to say. *)
Definition set_at (INDEX : nat) (v : value) : M ParameterMap unit :=
  match BaseTypeAt INDEX with
  | Some U =>
      match optional_assign U v with
      | Some o => std_get_assign INDEX o
      | None => ill_formed
      end
  | None => ill_formed
  end.

Definition set_by_name (name : string) (v : value) : M ParameterMap unit :=
  pass_first_index_matching_predicate_to (IsSettableFrom (deduced v))
    (ensure_name_matches name)
    (fun i => set_at i v).

Definition set_by_index (index : nat) (v : value) : M ParameterMap unit :=
  throw_if_index_out_of_range index ;;
  pass_first_index_matching_predicate_to (IsSettableFrom (deduced v))
    (fun i => ret (i =? index))
    (fun i => set_at i v).

(** *** get *)

(** The local [ret] points at one of the optionals of the tuple; it is
    modelled by the position of that optional, [None] being [nullptr]. *)
Definition deref_value (ptr : option nat) : M ParameterMap value :=
  match ptr with
  | Some i => o <- std_get i ;; optional_value o
  | None => undefined
  end.

Definition get_by_name (T : cpp_type) (name : string) : M ParameterMap value :=
  ret_ptr <-
    with_local None
      (pass_first_index_matching_predicate_to (IsGettableAs T)
         (fun i => on_snd (ensure_name_matches name i))
         (fun i =>
            on_snd (throw_if_no_value_stored_for_index i) ;;
            on_fst (put_state (Some i)))) ;;
  deref_value ret_ptr.

Definition get_by_index (T : cpp_type) (index : nat) : M ParameterMap value :=
  throw_if_index_out_of_range index ;;
  ret_ptr <-
    with_local None
      (pass_first_index_matching_predicate_to (IsGettableAs T)
         (fun i => ret (i =? index))
         (fun i =>
            on_snd (throw_if_no_value_stored_for_index i) ;;
            on_fst (put_state (Some i)))) ;;
  deref_value ret_ptr.

Definition get_at (INDEX : nat) : M ParameterMap value :=
  if INDEX <? n_parameters
  then
    throw_if_no_value_stored_for_index INDEX ;;
    o <- std_get INDEX ;;
    optional_value o
  else ill_formed.

(** *** is_set *)

(** Neither run-time overload calls [throw_if_index_out_of_range]. *)
Definition is_set_by_name (name : string) : M ParameterMap bool :=
  with_local false
    (pass_first_index_matching_predicate_to TruePredicate
       (fun i => on_snd (ensure_name_matches name i))
       (fun i => b <- on_snd (is_set_at i) ;; on_fst (put_state b))).

Definition is_set_by_index (index : nat) : M ParameterMap bool :=
  with_local false
    (pass_first_index_matching_predicate_to TruePredicate
       (fun i => ret (i =? index))
       (fun i => b <- on_snd (is_set_at i) ;; on_fst (put_state b))).

(** *** clear *)

Definition clear : M ParameterMap unit :=
  static_for 0 n_parameters (fun i => std_get_assign i None).

(** *** submit *)

(** The caller's function works on a state [W] of its own (captured
    variables, counters); the state of [submit] is the container paired
    with it.  [std::is_invocable_v<FUNCTION, PARAMETERS...>] is a matter
    of types: here the function takes the list of the stored values. *)
Definition submit {W R} (function : list value -> M W R) : M (ParameterMap * W) R :=
  static_for 0 n_parameters (fun i =>
    b <- on_fst (is_set_at i) ;;
    if negb b then throw runtime_error else ret tt) ;;
  pm <- on_fst get_state ;;
  on_snd (apply_optionals function (m_stored_values pm)).

End ParameterMap.

Arguments ParameterMap {_}.
Arguments Build_ParameterMap {_} _ _.
Arguments m_parameter_name_hashes {_} _.
Arguments m_stored_values {_} _.

(** ** Vocabulary of the statements *)

(** The first index from [First], among [count], that satisfies [p]. *)
Fixpoint first_index (p : nat -> bool) (First count : nat) : option nat :=
  match count with
  | O => None
  | S count' => if p First then Some First else first_index p (S First) count'
  end.

Section Vocabulary.
Context `{Cxx} (PARAMETERS : list cpp_type).

(** Slot [i] carries the given name, as far as the container can tell:
    it keeps the hashes of the names only. *)
Definition name_matches (pm : ParameterMap) (name : string) (i : nat) : bool :=
  match m_parameter_name_hashes pm !! i with
  | Some h => (h =? std_hash name)%N
  | None => false
  end.

Definition settable_from (v : value) (i : nat) : bool :=
  match BaseTypeAt PARAMETERS i with
  | Some U => is_convertible (type_of v) U
  | None => false
  end.

Definition gettable_as (T : cpp_type) (i : nat) : bool :=
  match BaseTypeAt PARAMETERS i with
  | Some U => bool_decide (remove_cv_ref T = U)
  | None => false
  end.

(** The container with slot [i] overwritten. *)
Definition store (i : nat) (o : option value) (pm : ParameterMap) : ParameterMap :=
  {| m_parameter_name_hashes := m_parameter_name_hashes pm;
     m_stored_values := <[i := o]> (m_stored_values pm) |}.

(** Every engaged slot holds a value of the slot's stored type. *)
Definition slots_typed (pm : ParameterMap) : Prop :=
  forall i x U,
    m_stored_values pm !! i = Some (Some x) ->
    BaseTypeAt PARAMETERS i = Some U ->
    type_of x = U.

(** The container with every slot empty. *)
Definition cleared (pm : ParameterMap) : ParameterMap :=
  {| m_parameter_name_hashes := m_parameter_name_hashes pm;
     m_stored_values := replicate (n_parameters PARAMETERS) None |}.

End Vocabulary.

(** [logged f] behaves as [f] and appends the arguments of each call to
    a log kept next to the state of [f]. *)
Definition logged `{Cxx} {W R} (f : list value -> M W R)
  : list value -> M (list (list value) * W) R :=
  fun args =>
    log <- on_fst get_state ;;
    on_fst (put_state (log ++ [args])) ;;
    on_snd (f args).

(** A function without side effects that returns normally. *)
Definition pure_function `{Cxx} {W R} (g : list value -> R) : list value -> M W R :=
  fun args => ret (g args).


(** ** A small instance: [int], [bool], [std::string] and string literals *)

Module Sample.

Inductive type : Type :=
| t_int | t_bool | t_string | t_literal | t_optional_int | t_nullopt.

Inductive val : Type :=
| v_int (z : Z)
| v_bool (b : bool)
| v_string (s : string)
| v_literal (s : string)
| v_optional_int (o : option Z)
| v_nullopt.

Definition val_type (v : val) : type :=
  match v with
  | v_int _ => t_int
  | v_bool _ => t_bool
  | v_string _ => t_string
  | v_literal _ => t_literal
  | v_optional_int _ => t_optional_int
  | v_nullopt => t_nullopt
  end.

#[export] Instance type_eq_dec : EqDecision type.
Proof. solve_decision. Defined.

(** The implicit conversions among these types: the arithmetic ones
    between [int] and [bool], a literal to [std::string], a literal
    (decayed to a pointer) to [bool], and an [int], a [bool], a
    [std::optional<int>] or [std::nullopt] to [std::optional<int>]. *)
Definition convertible (From To : type) : bool :=
  match From, To with
  | t_int, (t_int | t_bool | t_optional_int) => true
  | t_bool, (t_int | t_bool | t_optional_int) => true
  | t_string, t_string => true
  | t_literal, (t_string | t_bool) => true
  | t_optional_int, t_optional_int => true
  | t_nullopt, (t_optional_int | t_nullopt) => true
  | _, _ => false
  end.

Definition conv (To : type) (v : val) : val :=
  match v, To with
  | v_int z, t_bool => v_bool (negb (z =? 0)%Z)
  | v_int z, t_optional_int => v_optional_int (Some z)
  | v_bool b, t_int => v_int (if b then 1 else 0)
  | v_bool b, t_optional_int => v_optional_int (Some (if b then 1 else 0)%Z)
  | v_literal s, t_string => v_string s
  | v_literal _, t_bool => v_bool true
  | v_nullopt, t_optional_int => v_optional_int None
  | _, _ => v
  end.

(** [opt = v] on a [std::optional<To>]: [std::nullopt] selects
    [operator=(nullopt_t)], which empties the optional whatever [To] is;
    a [std::optional<int>] assigned to a [std::optional<int>] selects the
    copy assignment, which leaves the optional engaged or not as the
    argument is; any other value is stored, converted, when it converts
    to [To]. *)
Definition assign (To : type) (v : val) : option (option val) :=
  match v, To with
  | v_nullopt, _ => Some None
  | v_optional_int o, t_int => Some (v_int <$> o)
  | _, _ => if convertible (val_type v) To then Some (Some (conv To v)) else None
  end.

(** A stand-in for [std::hash], whose algorithm is left to the
    implementation: a polynomial hash reduced to 64 bits. *)
Fixpoint hash_from (h : N) (s : string) : N :=
  match s with
  | EmptyString => h
  | String c s' => hash_from ((h * 31 + N_of_ascii c) mod 2 ^ 64)%N s'
  end.

Definition hash (s : string) : N := hash_from 7 s.

Lemma conv_same v : conv (val_type v) v = v.
Proof. by destruct v. Qed.

Lemma conv_type To v : convertible (val_type v) To = true -> val_type (conv To v) = To.
Proof. by destruct v, To. Qed.

Lemma assign_convertible To v :
  convertible (val_type v) To = true ->
  assign To v = Some (Some (conv To v)) \/ assign To v = Some None.
Proof. intros Hconv. destruct v, To; try done; auto. Qed.

Lemma assign_type To v x : assign To v = Some (Some x) -> val_type x = To.
Proof.
  destruct v as [z|b|str|str|[z|]|], To; simpl; try done; by intros [= <-].
Qed.

#[export] Instance cxx : Cxx := {|
  base_type := type;
  is_convertible := convertible;
  value := val;
  type_of := val_type;
  convert := conv;
  convert_same := conv_same;
  convert_type := conv_type;
  optional_assign := assign;
  optional_assign_convertible := assign_convertible;
  optional_assign_type := assign_type;
  std_hash := hash;
|}.

Definition plain (U : type) : cpp_type :=
  {| is_const := false; is_volatile := false; reference := no_ref; unqualified := U |}.

Definition const_ref (U : type) : cpp_type :=
  {| is_const := true; is_volatile := false; reference := lvalue_ref; unqualified := U |}.

(** [ParameterMap<int, bool, const std::string&> map{"myInt", "enabled", "name"}],
    the container of the test suite. *)
Definition test_parameters : list cpp_type :=
  [plain t_int; plain t_bool; const_ref t_string].

Definition test_names : list string := ["myInt"; "enabled"; "name"]%string.

Definition test_map : ParameterMap :=
  {| m_parameter_name_hashes := hash <$> test_names;
     m_stored_values := [None; None; None] |}.

(** The same container after [set("myInt", 6)] and [set("enabled", false)]. *)
Definition partial_map : ParameterMap :=
  {| m_parameter_name_hashes := hash <$> test_names;
     m_stored_values := [Some (v_int 6); Some (v_bool false); None] |}.

(** After [set("myInt", 6)], [set("enabled", true)] and
    [set("name", "Homer Simpson")]. *)
Definition full_values : list value :=
  [v_int 6; v_bool true; v_string "Homer Simpson"].

Definition full_map : ParameterMap :=
  {| m_parameter_name_hashes := hash <$> test_names;
     m_stored_values := Some <$> full_values |}.

(** [testfunc] of the test suite: copies its arguments into captured
    variables and returns 7. *)
Definition testfunc : list value -> M (list value) Z :=
  fun args => put_state args ;; ret 7%Z.

(** [[](int, bool, const std::string&) { return 4; }] *)
Definition return_4 : list value -> Z := fun _ => 4%Z.

(** [ParameterMap<int, std::string, std::string> map{"x", "x", "x"}]:
    three slots of one name. *)
Definition shared_name_parameters : list cpp_type :=
  [plain t_int; plain t_string; plain t_string].

Definition shared_name_map : ParameterMap :=
  {| m_parameter_name_hashes := hash <$> ["x"; "x"; "x"]%string;
     m_stored_values := [None; None; Some (v_string "last")] |}.

(** [ParameterMap<std::optional<int>, bool> map{"limit", "verbose"}],
    with [set("limit", 10)] and [set("verbose", false)] done. *)
Definition optional_parameters : list cpp_type :=
  [plain t_optional_int; plain t_bool].

Definition optional_map : ParameterMap :=
  {| m_parameter_name_hashes := hash <$> ["limit"; "verbose"]%string;
     m_stored_values :=
       [Some (v_optional_int (Some 10%Z)); Some (v_bool false)] |}.

(** [ParameterMap<> map{}] *)
Definition empty_map : ParameterMap :=
  {| m_parameter_name_hashes := []; m_stored_values := [] |}.

End Sample.

(** ** The parameterised fixture of the test suite

    [ParameterMapSetGetTestSuite] of [tst/ParameterMap_gTest.cpp]: a
    container, the tuples [m_input] and [m_output], the array
    [m_is_set_output], and the member functions [Get], [Set] and [IsSet],
    which go through all slots with [static_for] in one addressing mode. *)

Module TestSuite.
Import Sample.

Module GetMemberType.
Inductive t : Type := BY_NAME | BY_RT_INDEX | BY_CT_INDEX.
End GetMemberType.

Module SetMemberType.
Inductive t : Type := BY_NAME | BY_RT_INDEX | BY_CT_INDEX.
End SetMemberType.

(** [std::to_string] on an index *)
Definition to_string (n : nat) : string :=
  NilEmpty.string_of_uint (Nat.to_uint n).

(** [using param_tuple_t = std::tuple<int, bool, std::string>] *)
Record param_tuple_t : Type := { get_0 : Z; get_1 : bool; get_2 : string }.

Definition n_params : nat := 3.

(** [std::tuple_element_t<i, param_tuple_t>] *)
Definition tuple_element_t (i : nat) : option type :=
  [t_int; t_bool; t_string] !! i.

(** [std::get<i>(t)], read *)
Definition tuple_get (i : nat) (t : param_tuple_t) : option value :=
  match i with
  | 0 => Some (v_int (get_0 t))
  | 1 => Some (v_bool (get_1 t))
  | 2 => Some (v_string (get_2 t))
  | _ => None
  end.

(** [std::get<i>(t) = x]: [x] is converted to the type of the element. *)
Definition tuple_assign (i : nat) (x : value) (t : param_tuple_t)
  : option param_tuple_t :=
  match tuple_element_t i with
  | Some U =>
      if convertible (val_type x) U
      then
        match i, conv U x with
        | 0, v_int a => Some {| get_0 := a; get_1 := get_1 t; get_2 := get_2 t |}
        | 1, v_bool b => Some {| get_0 := get_0 t; get_1 := b; get_2 := get_2 t |}
        | 2, v_string s => Some {| get_0 := get_0 t; get_1 := get_1 t; get_2 := s |}
        | _, _ => None
        end
      else None
  | None => None
  end.

Record Fixture : Type := {
  m_param_map : ParameterMap;
  m_input : param_tuple_t;
  m_output : param_tuple_t;
  m_is_set_output : list bool;
}.

(** [ParameterMap<int, bool, const std::string&> m_param_map] *)
Definition fixture_parameters : list cpp_type :=
  [plain t_int; plain t_bool; const_ref t_string].

Definition fixture_names : list string := ["Param0"; "Param1"; "Param2"]%string.

(** The fixture as its constructor and the default member initialisers
    leave it, with [m_input] as the test assigns it. *)
Definition fixture (input : param_tuple_t) : Fixture :=
  {| m_param_map :=
       {| m_parameter_name_hashes := hash <$> fixture_names;
          m_stored_values := replicate n_params None |};
     m_input := input;
     m_output := {| get_0 := 0; get_1 := false; get_2 := "" |};
     m_is_set_output := replicate n_params false |}.

(** A call of a member function of [m_param_map]. *)
Definition on_param_map {A} (m : M ParameterMap A) : M Fixture A :=
  fun fx =>
    let '(r, pm) := m (m_param_map fx) in
    (r, {| m_param_map := pm; m_input := m_input fx;
           m_output := m_output fx; m_is_set_output := m_is_set_output fx |}).

(** [m_input = input] *)
Definition assign_input (input : param_tuple_t) : M Fixture unit :=
  fun fx =>
    (Returns tt,
     {| m_param_map := m_param_map fx; m_input := input;
        m_output := m_output fx; m_is_set_output := m_is_set_output fx |}).

(** [std::get<i>(m_input)] *)
Definition read_input (i : nat) : M Fixture value :=
  fun fx =>
    match tuple_get i (m_input fx) with
    | Some x => (Returns x, fx)
    | None => (IllFormed, fx)
    end.

(** [std::get<i>(m_output) = x] *)
Definition assign_output (i : nat) (x : value) : M Fixture unit :=
  fun fx =>
    match tuple_assign i x (m_output fx) with
    | Some t =>
        (Returns tt,
         {| m_param_map := m_param_map fx; m_input := m_input fx;
            m_output := t; m_is_set_output := m_is_set_output fx |})
    | None => (IllFormed, fx)
    end.

(** [std::get<i>(m_is_set_output) = b] *)
Definition assign_is_set_output (i : nat) (b : bool) : M Fixture unit :=
  fun fx =>
    if i <? length (m_is_set_output fx)
    then
      (Returns tt,
       {| m_param_map := m_param_map fx; m_input := m_input fx;
          m_output := m_output fx;
          m_is_set_output := <[i := b]> (m_is_set_output fx) |})
    else (IllFormed, fx).

(** [std::string{"Param"} + std::to_string(i.value)] *)
Definition param_name (i : nat) : string := ("Param" ++ to_string i)%string.

Definition Get (method : GetMemberType.t) : M Fixture unit :=
  match method with
  | GetMemberType.BY_NAME =>
      static_for 0 n_params (fun i =>
        match tuple_element_t i with
        | Some U =>
            x <- on_param_map
                   (get_by_name fixture_parameters (plain U) (param_name i)) ;;
            assign_output i x
        | None => ill_formed
        end)
  | GetMemberType.BY_RT_INDEX =>
      static_for 0 n_params (fun i =>
        match tuple_element_t i with
        | Some U =>
            x <- on_param_map (get_by_index fixture_parameters (plain U) i) ;;
            assign_output i x
        | None => ill_formed
        end)
  | GetMemberType.BY_CT_INDEX =>
      static_for 0 n_params (fun i =>
        x <- on_param_map (get_at fixture_parameters i) ;;
        assign_output i x)
  end.

Definition Set_ (method : SetMemberType.t) : M Fixture unit :=
  match method with
  | SetMemberType.BY_NAME =>
      static_for 0 n_params (fun i =>
        x <- read_input i ;;
        on_param_map (set_by_name fixture_parameters (param_name i) x))
  | SetMemberType.BY_RT_INDEX =>
      static_for 0 n_params (fun i =>
        x <- read_input i ;;
        on_param_map (set_by_index fixture_parameters i x))
  | SetMemberType.BY_CT_INDEX =>
      static_for 0 n_params (fun i =>
        x <- read_input i ;;
        on_param_map (set_at fixture_parameters i x))
  end.

Definition IsSet (method : GetMemberType.t) : M Fixture unit :=
  match method with
  | GetMemberType.BY_NAME =>
      static_for 0 n_params (fun i =>
        b <- on_param_map (is_set_by_name fixture_parameters (param_name i)) ;;
        assign_is_set_output i b)
  | GetMemberType.BY_RT_INDEX =>
      static_for 0 n_params (fun i =>
        b <- on_param_map (is_set_by_index fixture_parameters i) ;;
        assign_is_set_output i b)
  | GetMemberType.BY_CT_INDEX =>
      static_for 0 n_params (fun i =>
        b <- on_param_map (is_set_at fixture_parameters i) ;;
        assign_is_set_output i b)
  end.

(** The container after [Set] has gone through the three slots. *)
Definition filled (input : param_tuple_t) : ParameterMap :=
  {| m_parameter_name_hashes := hash <$> fixture_names;
     m_stored_values :=
       [Some (v_int (get_0 input)); Some (v_bool (get_1 input));
        Some (v_string (get_2 input))] |}.

End TestSuite.

(** * Properties *)

(** ** The loop *)

Section Loops.
Context {St : Type}.

(** The count [Last - First] never runs out before [First < Last] fails:
    [static_for] satisfies the equation of the source. *)
Lemma static_for_unfold First Last (f : nat -> M St unit) :
  static_for First Last f =
  if First <? Last then (f First ;; static_for (S First) Last f) else ret tt.
Proof.
  unfold static_for. destruct (First <? Last) eqn:E.
  - apply Nat.ltb_lt in E.
    replace (Last - First) with (S (Last - S First)) by lia.
    simpl. by rewrite (proj2 (Nat.ltb_lt _ _) E).
  - apply Nat.ltb_ge in E. by replace (Last - First) with 0 by lia.
Qed.

Lemma static_for_empty First Last (f : nat -> M St unit) s :
  Last <= First -> static_for First Last f s = (Returns tt, s).
Proof.
  intros Hle. rewrite static_for_unfold.
  by rewrite (proj2 (Nat.ltb_ge _ _) Hle).
Qed.

Lemma static_for_step First Last (f : nat -> M St unit) s :
  First < Last ->
  static_for First Last f s = (f First ;; static_for (S First) Last f) s.
Proof.
  intros Hlt. rewrite static_for_unfold.
  by rewrite (proj2 (Nat.ltb_lt _ _) Hlt).
Qed.

(** A body that returns without touching the state makes the loop do the
    same. *)
Lemma static_for_skip First Last (f : nat -> M St unit) s :
  (forall i, First <= i < Last -> f i s = (Returns tt, s)) ->
  static_for First Last f s = (Returns tt, s).
Proof.
  remember (Last - First) as n eqn:Hn.
  revert First Hn. induction n as [|n IH]; intros First Hn Hf.
  - apply static_for_empty. lia.
  - rewrite static_for_step by lia. unfold bind.
    rewrite Hf by lia. apply IH; [lia|]. intros i Hi. apply Hf. lia.
Qed.

End Loops.


(** ** The first index that satisfies a predicate *)

Lemma first_index_Some p First count i :
  first_index p First count = Some i <->
  First <= i < First + count /\ p i = true /\
  forall j, First <= j < i -> p j = false.
Proof.
  revert First. induction count as [|n IH]; intros First; simpl.
  - split; [done | lia].
  - destruct (p First) eqn:E.
    + split.
      * intros [= <-]. repeat split; [lia | lia | done | lia].
      * intros (Hi & Hp & Hlow). f_equal.
        destruct (decide (First = i)) as [|Hne]; [done|].
        rewrite Hlow in E by lia. done.
    + rewrite IH. split.
      * intros (Hi & Hp & Hlow). repeat split; [lia | lia | done |].
        intros j Hj. destruct (decide (j = First)) as [->|]; [done|].
        apply Hlow. lia.
      * intros (Hi & Hp & Hlow).
        assert (First <> i) by (intros ->; congruence).
        repeat split; [lia | lia | done |].
        intros j Hj. apply Hlow. lia.
Qed.

Lemma first_index_None p First count :
  first_index p First count = None <->
  forall j, First <= j < First + count -> p j = false.
Proof.
  revert First. induction count as [|n IH]; intros First; simpl.
  - split; [lia | done].
  - destruct (p First) eqn:E.
    + split; [done|]. intros Hall. rewrite Hall in E by lia. done.
    + rewrite IH. split.
      * intros Hall j Hj. destruct (decide (j = First)) as [->|]; [done|].
        apply Hall. lia.
      * intros Hall j Hj. apply Hall. lia.
Qed.


(** ** The resolver *)

Section Resolver.
Context `{Cxx} (PARAMETERS : list cpp_type) {St : Type}.
Variables (CT : nat -> option bool) (c : nat -> bool).
Variables (rt : nat -> M St bool) (p : nat -> bool).
Variable func : nat -> M St unit.

(** Once [found] is set, the remaining indices are passed over. *)
Lemma visit_after_found First Last s :
  (forall i, First <= i < Last -> CT i = Some (c i)) ->
  static_for First Last (visit_index CT rt func) (true, s) = (Returns tt, (true, s)).
Proof.
  intros HCT. apply static_for_skip. intros i Hi.
  unfold visit_index. rewrite HCT by done. by destruct (c i).
Qed.

(** While the run-time predicate reads the state without changing it,
    the loop calls [func] at the first index that passes both predicates
    and nowhere else. *)
Lemma visit_until_found First Last s :
  (forall i, First <= i < Last -> CT i = Some (c i)) ->
  (forall i, First <= i < Last -> rt i s = (Returns (p i), s)) ->
  static_for First Last (visit_index CT rt func) (false, s) =
  match first_index (fun i => c i && p i) First (Last - First) with
  | None => (Returns tt, (false, s))
  | Some i => let '(r, s') := func i s in (r, (true, s'))
  end.
Proof.
  remember (Last - First) as n eqn:Hn.
  revert First Hn. induction n as [|n IH]; intros First Hn HCT Hrt.
  - simpl. apply static_for_empty. lia.
  - rewrite static_for_step by lia. simpl.
    assert (visit_index CT rt func First (false, s) =
            if c First && p First
            then let '(r, s') := func First s in (r, (true, s'))
            else (Returns tt, (false, s))) as Hvisit.
    { unfold visit_index. rewrite HCT by lia.
      destruct (c First); [|done].
      unfold bind, on_fst, on_snd, and_then, get_state, put_state; simpl.
      rewrite Hrt by lia. destruct (p First); [|done]. simpl.
      by destruct (func First s). }
    unfold bind. rewrite Hvisit.
    destruct (c First && p First).
    + destruct (func First s) as [[[]| | |] s']; try done.
      apply visit_after_found. intros i Hi. apply HCT. lia.
    + apply IH; [lia | |]; intros i Hi; [apply HCT | apply Hrt]; lia.
Qed.

Lemma pass_first_index_spec s :
  (forall i, i < n_parameters PARAMETERS -> CT i = Some (c i)) ->
  (forall i, i < n_parameters PARAMETERS -> rt i s = (Returns (p i), s)) ->
  pass_first_index_matching_predicate_to PARAMETERS CT rt func s =
  match first_index (fun i => c i && p i) 0 (n_parameters PARAMETERS) with
  | None => (Throws invalid_argument, s)
  | Some i => func i s
  end.
Proof.
  intros HCT Hrt. unfold pass_first_index_matching_predicate_to, bind, with_local.
  rewrite visit_until_found.
  - rewrite Nat.sub_0_r.
    destruct (first_index _ 0 _); [|done].
    by destruct (func n s) as [[[]| | |] s'].
  - intros i Hi. apply HCT. lia.
  - intros i Hi. apply Hrt. lia.
Qed.

End Resolver.

(** ** The member functions, one by one *)

Section Members.
Context `{Cxx} (PARAMETERS : list cpp_type).

Lemma BaseTypeAt_lt i U : BaseTypeAt PARAMETERS i = Some U -> i < (n_parameters PARAMETERS).
Proof.
  unfold BaseTypeAt. intros HU.
  destruct (PARAMETERS !! i) eqn:E; [|done].
  by apply lookup_lt_Some in E.
Qed.

Lemma BaseTypeAt_is_Some i : i < (n_parameters PARAMETERS) -> is_Some (BaseTypeAt PARAMETERS i).
Proof.
  intros Hi. unfold BaseTypeAt.
  destruct (lookup_lt_is_Some_2 PARAMETERS i Hi) as [T ->]. by eexists.
Qed.

Lemma IsSettableFrom_lt v i :
  i < (n_parameters PARAMETERS) ->
  IsSettableFrom PARAMETERS (deduced v) i = Some (settable_from PARAMETERS v i).
Proof.
  intros Hi. unfold IsSettableFrom, settable_from.
  by destruct (BaseTypeAt_is_Some i Hi) as [U ->].
Qed.

Lemma IsGettableAs_lt T i :
  i < (n_parameters PARAMETERS) ->
  IsGettableAs PARAMETERS T i = Some (gettable_as PARAMETERS T i).
Proof.
  intros Hi. unfold IsGettableAs, gettable_as.
  by destruct (BaseTypeAt_is_Some i Hi) as [U ->].
Qed.

Lemma wf_store i o pm : wf PARAMETERS pm -> wf PARAMETERS (store i o pm).
Proof. intros [Hh Hs]. split; simpl; [done|]. by rewrite length_insert. Qed.

Lemma wf_slot pm i : wf PARAMETERS pm -> i < (n_parameters PARAMETERS) -> is_Some (m_stored_values pm !! i).
Proof. intros [_ Hs] Hi. apply lookup_lt_is_Some_2. lia. Qed.

Lemma ensure_name_matches_spec pm name i :
  wf PARAMETERS pm -> i < (n_parameters PARAMETERS) ->
  ensure_name_matches name i pm = (Returns (name_matches pm name i), pm).
Proof.
  intros [Hh _] Hi. unfold ensure_name_matches, name_matches, bind, get_state.
  destruct (lookup_lt_is_Some_2 (m_parameter_name_hashes pm) i) as [h ->]; [lia|done].
Qed.

Lemma is_set_at_spec pm i o :
  i < (n_parameters PARAMETERS) -> m_stored_values pm !! i = Some o ->
  is_set_at PARAMETERS i pm = (Returns (has_value o), pm).
Proof.
  intros Hi Ho. unfold is_set_at, bind, std_get.
  rewrite (proj2 (Nat.ltb_lt _ _) Hi). by rewrite Ho.
Qed.

Lemma set_at_spec pm i U v o :
  wf PARAMETERS pm -> BaseTypeAt PARAMETERS i = Some U -> optional_assign U v = Some o ->
  set_at PARAMETERS i v pm = (Returns tt, store i o pm).
Proof.
  intros [_ Hs] HU Hassign. unfold set_at, std_get_assign. rewrite HU, Hassign.
  apply BaseTypeAt_lt in HU.
  by rewrite (proj2 (Nat.ltb_lt i _)) by lia.
Qed.

Lemma get_at_value pm i x :
  i < (n_parameters PARAMETERS) -> m_stored_values pm !! i = Some (Some x) ->
  get_at PARAMETERS i pm = (Returns x, pm).
Proof.
  intros Hi Hx. unfold get_at, throw_if_no_value_stored_for_index, bind.
  rewrite (proj2 (Nat.ltb_lt _ _) Hi).
  rewrite (is_set_at_spec pm i (Some x)) by done. simpl.
  unfold std_get. by rewrite Hx.
Qed.

Lemma get_at_empty pm i :
  i < (n_parameters PARAMETERS) -> m_stored_values pm !! i = Some None ->
  get_at PARAMETERS i pm = (Throws runtime_error, pm).
Proof.
  intros Hi Hx. unfold get_at, throw_if_no_value_stored_for_index, bind.
  rewrite (proj2 (Nat.ltb_lt _ _) Hi).
  by rewrite (is_set_at_spec pm i None).
Qed.

(** The first index below [count] that equals [index]. *)
Lemma first_index_eqb c index count :
  index < count ->
  first_index (fun i => c i && (i =? index)) 0 count =
  if c index then Some index else None.
Proof.
  intros Hlt. destruct (c index) eqn:Hc.
  - apply first_index_Some. repeat split; [lia | lia | |].
    + by rewrite Hc, Nat.eqb_refl.
    + intros j Hj. rewrite (proj2 (Nat.eqb_neq j index)) by lia.
      apply andb_false_r.
  - apply first_index_None. intros j _.
    destruct (decide (j = index)) as [->|Hne].
    + by rewrite Hc.
    + rewrite (proj2 (Nat.eqb_neq j index)) by done. apply andb_false_r.
Qed.

(** *** Which slot a call resolves to *)

Lemma set_by_name_resolve pm name v :
  wf PARAMETERS pm ->
  set_by_name PARAMETERS name v pm =
  match first_index (fun i => settable_from PARAMETERS v i && name_matches pm name i)
          0 (n_parameters PARAMETERS) with
  | None => (Throws invalid_argument, pm)
  | Some i => set_at PARAMETERS i v pm
  end.
Proof.
  intros Hwf. unfold set_by_name.
  apply (pass_first_index_spec PARAMETERS _ (settable_from PARAMETERS v) _ (name_matches pm name)).
  - intros i Hi. by apply IsSettableFrom_lt.
  - intros i Hi. by apply ensure_name_matches_spec.
Qed.

Lemma set_by_index_resolve pm index v :
  set_by_index PARAMETERS index v pm =
  if n_parameters PARAMETERS <=? index then (Throws out_of_range, pm)
  else if settable_from PARAMETERS v index then set_at PARAMETERS index v pm
  else (Throws invalid_argument, pm).
Proof.
  unfold set_by_index, throw_if_index_out_of_range, bind.
  destruct (n_parameters PARAMETERS <=? index) eqn:E; [done|]. simpl.
  apply Nat.leb_gt in E.
  rewrite (pass_first_index_spec PARAMETERS _ (settable_from PARAMETERS v) _ (fun i => i =? index)).
  - rewrite first_index_eqb by done. by destruct (settable_from PARAMETERS v index).
  - intros i Hi. by apply IsSettableFrom_lt.
  - done.
Qed.

(** The part that the two run-time overloads of [get] share. *)
Lemma get_resolve pm T (rt : nat -> M (option nat * ParameterMap) bool) p :
  wf PARAMETERS pm ->
  (forall i, i < n_parameters PARAMETERS ->
     rt i (None, pm) = (Returns (p i), (None, pm))) ->
  (ret_ptr <-
     with_local None
       (pass_first_index_matching_predicate_to PARAMETERS (IsGettableAs PARAMETERS T) rt
          (fun i =>
             on_snd (throw_if_no_value_stored_for_index PARAMETERS i) ;;
             on_fst (put_state (Some i)))) ;;
   deref_value ret_ptr) pm =
  match first_index (fun i => gettable_as PARAMETERS T i && p i) 0 (n_parameters PARAMETERS) with
  | None => (Throws invalid_argument, pm)
  | Some i => get_at PARAMETERS i pm
  end.
Proof.
  intros Hwf Hrt. unfold bind at 1. unfold with_local.
  rewrite (pass_first_index_spec PARAMETERS _ (gettable_as PARAMETERS T) _ p);
    [| intros i Hi; by apply IsGettableAs_lt | done].
  destruct (first_index _ 0 _) as [i|] eqn:Hfirst; [|done].
  apply first_index_Some in Hfirst as ([_ Hi] & _ & _). simpl in Hi.
  destruct (wf_slot pm i Hwf Hi) as [o Ho].
  unfold bind, on_snd, on_fst, throw_if_no_value_stored_for_index, bind.
  rewrite (is_set_at_spec pm i o) by done.
  destruct o as [x|]; simpl.
  - rewrite (get_at_value pm i x) by done.
    unfold bind, std_get. by rewrite Ho.
  - by rewrite get_at_empty.
Qed.

Lemma get_by_name_resolve pm T name :
  wf PARAMETERS pm ->
  get_by_name PARAMETERS T name pm =
  match first_index (fun i => gettable_as PARAMETERS T i && name_matches pm name i)
          0 (n_parameters PARAMETERS) with
  | None => (Throws invalid_argument, pm)
  | Some i => get_at PARAMETERS i pm
  end.
Proof.
  intros Hwf. unfold get_by_name. apply get_resolve; [done|].
  intros i Hi. unfold on_snd. by rewrite ensure_name_matches_spec.
Qed.

Lemma get_by_index_resolve pm T index :
  wf PARAMETERS pm ->
  get_by_index PARAMETERS T index pm =
  if n_parameters PARAMETERS <=? index then (Throws out_of_range, pm)
  else if gettable_as PARAMETERS T index then get_at PARAMETERS index pm
  else (Throws invalid_argument, pm).
Proof.
  intros Hwf. unfold get_by_index, throw_if_index_out_of_range.
  unfold bind at 1.
  destruct (n_parameters PARAMETERS <=? index) eqn:E; [done|]. simpl.
  apply Nat.leb_gt in E.
  rewrite (get_resolve pm T _ (fun i => i =? index)) by done.
  rewrite first_index_eqb by done. by destruct (gettable_as PARAMETERS T index).
Qed.

(** The part that the two run-time overloads of [is_set] share. *)
Lemma is_set_resolve pm (rt : nat -> M (bool * ParameterMap) bool) p :
  wf PARAMETERS pm ->
  (forall i, i < n_parameters PARAMETERS ->
     rt i (false, pm) = (Returns (p i), (false, pm))) ->
  with_local false
    (pass_first_index_matching_predicate_to PARAMETERS TruePredicate rt
       (fun i => b <- on_snd (is_set_at PARAMETERS i) ;; on_fst (put_state b))) pm =
  match first_index p 0 (n_parameters PARAMETERS) with
  | None => (Throws invalid_argument, pm)
  | Some i => is_set_at PARAMETERS i pm
  end.
Proof.
  intros Hwf Hrt. unfold with_local.
  rewrite (pass_first_index_spec PARAMETERS _ (fun _ => true) _ p); [|done..].
  simpl. destruct (first_index p 0 _) as [i|] eqn:Hfirst; [|done].
  apply first_index_Some in Hfirst as ([_ Hi] & _ & _). simpl in Hi.
  destruct (wf_slot pm i Hwf Hi) as [o Ho].
  unfold bind, on_snd, on_fst.
  by rewrite (is_set_at_spec pm i o).
Qed.

Lemma is_set_by_name_resolve pm name :
  wf PARAMETERS pm ->
  is_set_by_name PARAMETERS name pm =
  match first_index (name_matches pm name) 0 (n_parameters PARAMETERS) with
  | None => (Throws invalid_argument, pm)
  | Some i => is_set_at PARAMETERS i pm
  end.
Proof.
  intros Hwf. unfold is_set_by_name. apply is_set_resolve; [done|].
  intros i Hi. unfold on_snd. by rewrite ensure_name_matches_spec.
Qed.

(** No bounds check precedes the search here: an index beyond the last
    slot is simply not found. *)
Lemma is_set_by_index_resolve pm index :
  wf PARAMETERS pm ->
  is_set_by_index PARAMETERS index pm =
  if index <? n_parameters PARAMETERS then is_set_at PARAMETERS index pm
  else (Throws invalid_argument, pm).
Proof.
  intros Hwf. unfold is_set_by_index.
  rewrite (is_set_resolve pm _ (fun i => i =? index)) by done.
  destruct (index <? n_parameters PARAMETERS) eqn:E.
  - apply Nat.ltb_lt in E.
    pose proof (first_index_eqb (fun _ => true) index _ E) as Hfirst.
    simpl in Hfirst. by rewrite Hfirst.
  - apply Nat.ltb_ge in E.
    replace (first_index _ 0 _) with (@None nat); [done|].
    symmetry. apply first_index_None. intros j Hj.
    apply Nat.eqb_neq. lia.
Qed.

End Members.

(** ** [clear] and [submit] *)

Section Dispatch.
Context `{Cxx} (PARAMETERS : list cpp_type).

Lemma clear_from First pm :
  wf PARAMETERS pm -> First <= n_parameters PARAMETERS ->
  static_for First (n_parameters PARAMETERS) (fun i => std_get_assign i None) pm =
  (Returns tt,
   {| m_parameter_name_hashes := m_parameter_name_hashes pm;
      m_stored_values :=
        take First (m_stored_values pm) ++
        replicate (n_parameters PARAMETERS - First) None |}).
Proof.
  remember (n_parameters PARAMETERS - First) as n eqn:Hn.
  revert First pm Hn. induction n as [|n IH]; intros First pm Hn Hwf HFirst.
  - rewrite static_for_empty by lia. destruct Hwf as [_ Hs].
    rewrite take_ge by lia. simpl. rewrite app_nil_r. by destruct pm.
  - rewrite static_for_step by lia. unfold bind.
    pose proof Hwf as [_ Hs].
    unfold std_get_assign at 1.
    rewrite (proj2 (Nat.ltb_lt First _)) by lia.
    etrans;
      [apply (IH (S First) (store First None pm));
         [lia | by apply wf_store | lia] |].
    simpl. do 2 f_equal.
    rewrite (take_S_r _ _ None) by (apply list_lookup_insert_eq; lia).
    rewrite take_insert_ge by done. by rewrite <- app_assoc.
Qed.

Lemma clear_spec pm :
  wf PARAMETERS pm -> clear PARAMETERS pm = (Returns tt, cleared PARAMETERS pm).
Proof.
  intros Hwf. unfold clear. rewrite clear_from; [|done|lia].
  by rewrite Nat.sub_0_r.
Qed.

Lemma wf_cleared pm : wf PARAMETERS pm -> wf PARAMETERS (cleared PARAMETERS pm).
Proof. intros [Hh _]. split; simpl; [done|]. apply length_replicate. Qed.

(** The check that opens [submit]. *)
Lemma submit_check_from {W} First pm (w : W) :
  wf PARAMETERS pm -> First <= n_parameters PARAMETERS ->
  static_for First (n_parameters PARAMETERS)
    (fun i =>
       b <- on_fst (is_set_at PARAMETERS i) ;;
       if negb b then throw runtime_error else ret tt) (pm, w) =
  (if forallb has_value (drop First (m_stored_values pm))
   then Returns tt else Throws runtime_error, (pm, w)).
Proof.
  remember (n_parameters PARAMETERS - First) as n eqn:Hn.
  revert First Hn. induction n as [|n IH]; intros First Hn Hwf HFirst.
  - rewrite static_for_empty by lia. destruct Hwf as [_ Hs].
    by rewrite drop_ge by lia.
  - rewrite static_for_step by lia.
    destruct (wf_slot PARAMETERS pm First Hwf) as [o Ho]; [lia|].
    rewrite (drop_S _ o) by done. simpl.
    unfold bind at 1. unfold bind at 1. unfold on_fst.
    rewrite (is_set_at_spec PARAMETERS pm First o) by (done || lia).
    destruct o as [x|]; simpl; [|done].
    apply IH; [lia | done | lia].
Qed.

Lemma forallb_has_value (l : list (option value)) :
  forallb has_value l = true <-> exists args, l = Some <$> args.
Proof.
  induction l as [|o l IH]; simpl.
  - split; [by exists [] | done].
  - destruct o as [x|]; simpl.
    + rewrite IH. split.
      * intros [args ->]. by exists (x :: args).
      * intros [[|y args] [= ? ->]]. by exists args.
    + split; [done|]. by intros [[|y args] [=]].
Qed.

Lemma forallb_has_value_empty (l : list (option value)) i :
  l !! i = Some None -> forallb has_value l = false.
Proof.
  intros Hi. destruct (forallb has_value l) eqn:E; [|done].
  apply forallb_has_value in E as [args ->].
  rewrite list_lookup_fmap in Hi. by destruct (args !! i).
Qed.

Lemma unwrap_all {A} (pre : list (option A)) (args : list A) :
  mapM (fun i => mjoin ((pre ++ (Some <$> args)) !! i))
    (seq (length pre) (length args)) = Some args.
Proof.
  revert pre. induction args as [|x args IH]; intros pre; [done|].
  simpl. rewrite list_lookup_middle by done. simpl.
  specialize (IH (pre ++ [Some x])).
  rewrite length_app, Nat.add_1_r, <- app_assoc in IH. simpl in IH.
  unfold fmap in IH. by rewrite IH.
Qed.

Lemma apply_optionals_all_set {St A R} (f : list A -> M St R) (args : list A) :
  apply_optionals f (Some <$> args) = f args.
Proof.
  unfold apply_optionals, apply_optionals_impl.
  rewrite length_fmap.
  pose proof (unwrap_all [] args) as Hall. simpl in Hall.
  unfold fmap in *. by rewrite Hall.
Qed.

Lemma submit_spec {W R} (function : list value -> M W R) pm w :
  wf PARAMETERS pm ->
  submit PARAMETERS function (pm, w) =
  if forallb has_value (m_stored_values pm)
  then let '(r, w') := apply_optionals function (m_stored_values pm) w in
       (r, (pm, w'))
  else (Throws runtime_error, (pm, w)).
Proof.
  intros Hwf. unfold submit. unfold bind at 1.
  rewrite submit_check_from; [|done|lia]. rewrite drop_0.
  by destruct (forallb has_value (m_stored_values pm)).
Qed.

End Dispatch.

(** ** Invariant and shared facts *)

Section Shared.
Context `{Cxx} (PARAMETERS : list cpp_type).

Lemma construct_wf names pm :
  construct PARAMETERS names = Returns pm -> wf PARAMETERS pm.
Proof.
  unfold construct. destruct (length names =? n_parameters PARAMETERS) eqn:E; [|done].
  apply Nat.eqb_eq in E. intros [= <-]. split; simpl.
  - by rewrite length_fmap.
  - apply length_replicate.
Qed.

Lemma construct_empty names pm i :
  construct PARAMETERS names = Returns pm -> i < n_parameters PARAMETERS ->
  m_stored_values pm !! i = Some None.
Proof.
  unfold construct. destruct (length names =? n_parameters PARAMETERS); [|done].
  intros [= <-] Hi. simpl. by apply lookup_replicate_2.
Qed.

(** The stored hashes are those of the names given to the constructor. *)
Lemma construct_name_matches names pm name i :
  construct PARAMETERS names = Returns pm ->
  name_matches pm name i = true <->
  exists n, names !! i = Some n /\ std_hash n = std_hash name.
Proof.
  unfold construct. destruct (length names =? n_parameters PARAMETERS); [|done].
  intros [= <-]. unfold name_matches. simpl. rewrite list_lookup_fmap.
  destruct (names !! i) as [n|]; simpl.
  - rewrite N.eqb_eq. split; [by exists n | by intros (? & [= <-] & ?)].
  - split; [done | by intros (? & ? & _)].
Qed.

Lemma construct_typed names pm :
  construct PARAMETERS names = Returns pm -> slots_typed PARAMETERS pm.
Proof.
  intros Hpm i x U Hx _.
  destruct (decide (i < n_parameters PARAMETERS)) as [Hi|Hi].
  - by rewrite (construct_empty names pm i Hpm Hi) in Hx.
  - apply construct_wf in Hpm as [_ Hs].
    apply lookup_lt_Some in Hx. lia.
Qed.

(** A store through [set] keeps the slots typed. *)
Lemma set_at_typed pm pm' i v :
  wf PARAMETERS pm -> slots_typed PARAMETERS pm ->
  set_at PARAMETERS i v pm = (Returns tt, pm') ->
  wf PARAMETERS pm' /\ slots_typed PARAMETERS pm'.
Proof.
  intros Hwf Htyped. unfold set_at.
  destruct (BaseTypeAt PARAMETERS i) as [U|] eqn:HU; [|done].
  destruct (optional_assign U v) as [o|] eqn:Hassign; [|done].
  unfold std_get_assign.
  destruct (i <? length (m_stored_values pm)) eqn:Hi; [|done].
  apply Nat.ltb_lt in Hi. intros [= <-]. split.
  - by apply (wf_store PARAMETERS i _ pm).
  - intros j x V Hx HV. simpl in Hx.
    destruct (decide (i = j)) as [<-|Hne].
    + rewrite list_lookup_insert_eq in Hx by done.
      injection Hx as ->. rewrite HU in HV. injection HV as <-.
      by apply (optional_assign_type U v).
    + rewrite list_lookup_insert_ne in Hx by done. by eapply Htyped.
Qed.

Lemma first_index_lowest p i count :
  i < count -> p i = true -> (forall j, j < i -> p j = false) ->
  first_index p 0 count = Some i.
Proof.
  intros Hi Hp Hlow. apply first_index_Some.
  repeat split; [lia | lia | done |]. intros j Hj. apply Hlow. lia.
Qed.

Lemma settable_from_true v i :
  settable_from PARAMETERS v i = true <->
  IsSettableFrom PARAMETERS (deduced v) i = Some true.
Proof.
  unfold settable_from, IsSettableFrom. simpl.
  destruct (BaseTypeAt PARAMETERS i) as [U|]; simpl; [|done].
  split; [by intros -> | by intros [= ->]].
Qed.

Lemma gettable_as_true T i :
  gettable_as PARAMETERS T i = true <->
  IsGettableAs PARAMETERS T i = Some true.
Proof.
  unfold gettable_as, IsGettableAs.
  destruct (BaseTypeAt PARAMETERS i) as [U|]; simpl; [|done].
  split; [by intros -> | by intros [= ->]].
Qed.

Lemma name_matches_lt pm name i :
  wf PARAMETERS pm -> name_matches pm name i = true -> i < n_parameters PARAMETERS.
Proof.
  intros [Hh _]. unfold name_matches.
  destruct (m_parameter_name_hashes pm !! i) eqn:E; [|done].
  apply lookup_lt_Some in E. lia.
Qed.

(** The by-name calls, given the lowest slot that carries the name and
    passes the compile-time predicate of the call. *)
Lemma set_by_name_lowest pm name v i :
  wf PARAMETERS pm ->
  name_matches pm name i = true ->
  IsSettableFrom PARAMETERS (deduced v) i = Some true ->
  (forall j, j < i -> name_matches pm name j = true ->
     IsSettableFrom PARAMETERS (deduced v) j <> Some true) ->
  set_by_name PARAMETERS name v pm = set_at PARAMETERS i v pm.
Proof.
  intros Hwf Hname Hset Hlow. rewrite set_by_name_resolve by done.
  rewrite (first_index_lowest _ i); [done | by eapply name_matches_lt | |].
  - rewrite Hname. by rewrite (proj2 (settable_from_true v i)).
  - intros j Hj. destruct (name_matches pm name j) eqn:Hj'; [|apply andb_false_r].
    rewrite andb_true_r. apply not_true_is_false.
    rewrite settable_from_true. by apply Hlow.
Qed.

Lemma get_by_name_lowest pm name T i :
  wf PARAMETERS pm ->
  name_matches pm name i = true ->
  IsGettableAs PARAMETERS T i = Some true ->
  (forall j, j < i -> name_matches pm name j = true ->
     IsGettableAs PARAMETERS T j <> Some true) ->
  get_by_name PARAMETERS T name pm = get_at PARAMETERS i pm.
Proof.
  intros Hwf Hname Hget Hlow. rewrite get_by_name_resolve by done.
  rewrite (first_index_lowest _ i); [done | by eapply name_matches_lt | |].
  - rewrite Hname. by rewrite (proj2 (gettable_as_true T i)).
  - intros j Hj. destruct (name_matches pm name j) eqn:Hj'; [|apply andb_false_r].
    rewrite andb_true_r. apply not_true_is_false.
    rewrite gettable_as_true. by apply Hlow.
Qed.

Lemma is_set_by_name_lowest pm name i :
  wf PARAMETERS pm ->
  name_matches pm name i = true ->
  (forall j, j < i -> name_matches pm name j = false) ->
  is_set_by_name PARAMETERS name pm = is_set_at PARAMETERS i pm.
Proof.
  intros Hwf Hname Hlow. rewrite is_set_by_name_resolve by done.
  rewrite (first_index_lowest _ i); [done | by eapply name_matches_lt | done..].
Qed.

(** What a store into slot [i] through any overload of [set] leaves
    behind, and what every overload of [is_set] and [get] then reads. *)
Lemma set_and_read pm i U v x name T :
  wf PARAMETERS pm ->
  BaseTypeAt PARAMETERS i = Some U ->
  is_convertible (type_of v) U = true ->
  optional_assign U v = Some (Some x) ->
  name_matches pm name i = true ->
  (forall j, j <> i -> name_matches pm name j = false) ->
  remove_cv_ref T = U ->
  let pm' := store i (Some x) pm in
  (set_by_name PARAMETERS name v pm = (Returns tt, pm') /\
   set_by_index PARAMETERS i v pm = (Returns tt, pm') /\
   set_at PARAMETERS i v pm = (Returns tt, pm')) /\
  (is_set_by_name PARAMETERS name pm' = (Returns true, pm') /\
   is_set_by_index PARAMETERS i pm' = (Returns true, pm') /\
   is_set_at PARAMETERS i pm' = (Returns true, pm')) /\
  (get_by_name PARAMETERS T name pm' = (Returns x, pm') /\
   get_by_index PARAMETERS T i pm' = (Returns x, pm') /\
   get_at PARAMETERS i pm' = (Returns x, pm')).
Proof.
  intros Hwf HU Hconv Hassign Hname Hother HT pm'.
  pose proof (BaseTypeAt_lt _ _ _ HU) as Hi.
  assert (IsSettableFrom PARAMETERS (deduced v) i = Some true) as Hset.
  { unfold IsSettableFrom. rewrite HU. simpl. by rewrite Hconv. }
  assert (IsGettableAs PARAMETERS T i = Some true) as Hget.
  { unfold IsGettableAs. rewrite HU. simpl. by rewrite bool_decide_eq_true_2. }
  assert (wf PARAMETERS pm') as Hwf' by by apply wf_store.
  assert (m_stored_values pm' !! i = Some (Some x)) as Hslot.
  { simpl. apply list_lookup_insert_eq. destruct Hwf as [_ ->]. done. }
  assert (set_at PARAMETERS i v pm = (Returns tt, pm')) as Hat
    by by apply (set_at_spec PARAMETERS pm i U v).
  assert (is_set_at PARAMETERS i pm' = (Returns true, pm')) as His
    by by rewrite (is_set_at_spec _ pm' i _ Hi Hslot).
  assert (get_at PARAMETERS i pm' = (Returns x, pm')) as Hval
    by by apply get_at_value.
  split; [|split]; repeat split; try done.
  - rewrite (set_by_name_lowest pm name v i); try done.
    intros j Hj Hj'. rewrite Hother in Hj' by lia. done.
  - rewrite set_by_index_resolve.
    rewrite (proj2 (Nat.leb_gt _ _) Hi).
    by rewrite (proj2 (settable_from_true v i) Hset).
  - rewrite (is_set_by_name_lowest pm' name i); try done.
    intros j Hj. apply Hother. lia.
  - rewrite is_set_by_index_resolve by done.
    by rewrite (proj2 (Nat.ltb_lt _ _) Hi).
  - rewrite (get_by_name_lowest pm' name T i); try done.
    intros j Hj Hj'. change (name_matches pm name j = true) in Hj'.
    rewrite Hother in Hj' by lia. done.
  - rewrite get_by_index_resolve by done.
    rewrite (proj2 (Nat.leb_gt _ _) Hi).
    by rewrite (proj2 (gettable_as_true T i) Hget).
Qed.

End Shared.

(** ** The claims *)

Section Claims.
Context `{Cxx} (PARAMETERS : list cpp_type).

(** C1: when every slot holds a value, [submit f] is one call of [f] on
    the stored values in the order of the slots: its result and its
    effect are those of that call, the call log grows by exactly that
    one entry, and the container is as before. *)
Theorem submit_calls_function_once {W R} pm args (f : list value -> M W R) w :
  wf PARAMETERS pm ->
  m_stored_values pm = Some <$> args ->
  submit PARAMETERS f (pm, w) = (let '(r, w') := f args w in (r, (pm, w'))) /\
  forall log,
    submit PARAMETERS (logged f) (pm, (log, w)) =
    (let '(r, w') := f args w in (r, (pm, (log ++ [args], w')))).
Proof.
  intros Hwf Hargs.
  assert (forallb has_value (m_stored_values pm) = true) as Hall.
  { apply forallb_has_value. by exists args. }
  split; [|intros log]; rewrite submit_spec by done;
    rewrite Hall, Hargs, apply_optionals_all_set.
  - done.
  - unfold logged, bind, on_fst, on_snd, get_state, put_state.
    by destruct (f args w).
Qed.

(** C2: when some slot is empty, [submit f] throws [std::runtime_error]
    and leaves the container and the state of [f] as they were; the call
    log shows that [f] was not called. *)
Theorem submit_missing_value {W R} pm i (f : list value -> M W R) w :
  wf PARAMETERS pm ->
  m_stored_values pm !! i = Some None ->
  submit PARAMETERS f (pm, w) = (Throws runtime_error, (pm, w)) /\
  forall log,
    submit PARAMETERS (logged f) (pm, (log, w)) =
    (Throws runtime_error, (pm, (log, w))).
Proof.
  intros Hwf Hi.
  split; [|intros log]; rewrite submit_spec by done;
    by rewrite (forallb_has_value_empty _ i).
Qed.


(** C4, as the code has it: at a run-time index beyond the last slot,
    [set] and [get] throw [std::out_of_range] whatever the type of the
    value or the type asked for and whatever the slots hold, while
    [is_set] throws [std::invalid_argument]: it does not check the
    bounds, and no index is found. *)
Theorem index_beyond_last_slot pm index :
  wf PARAMETERS pm -> n_parameters PARAMETERS <= index ->
  (forall v, set_by_index PARAMETERS index v pm = (Throws out_of_range, pm)) /\
  (forall T, get_by_index PARAMETERS T index pm = (Throws out_of_range, pm)) /\
  is_set_by_index PARAMETERS index pm = (Throws invalid_argument, pm).
Proof.
  intros Hwf Hge. repeat split.
  - intros v. rewrite set_by_index_resolve.
    by rewrite (proj2 (Nat.leb_le _ _) Hge).
  - intros T. rewrite get_by_index_resolve by done.
    by rewrite (proj2 (Nat.leb_le _ _) Hge).
  - rewrite is_set_by_index_resolve by done.
    by rewrite (proj2 (Nat.ltb_ge _ _) Hge).
Qed.

(** C5: [set] and [get] throw [std::invalid_argument] when the name is
    that of no slot, when no slot of that name passes the type predicate
    of the call (conversion for [set], the same type for [get]), and
    when the slot at a valid index does not pass it. *)
Theorem mismatch_throws_invalid_argument pm :
  wf PARAMETERS pm ->
  (forall name v,
     (forall i, name_matches pm name i = false) ->
     set_by_name PARAMETERS name v pm = (Throws invalid_argument, pm)) /\
  (forall name T,
     (forall i, name_matches pm name i = false) ->
     get_by_name PARAMETERS T name pm = (Throws invalid_argument, pm)) /\
  (forall name v,
     (forall i, name_matches pm name i = true ->
        IsSettableFrom PARAMETERS (deduced v) i <> Some true) ->
     set_by_name PARAMETERS name v pm = (Throws invalid_argument, pm)) /\
  (forall name T,
     (forall i, name_matches pm name i = true ->
        IsGettableAs PARAMETERS T i <> Some true) ->
     get_by_name PARAMETERS T name pm = (Throws invalid_argument, pm)) /\
  (forall index v,
     index < n_parameters PARAMETERS ->
     IsSettableFrom PARAMETERS (deduced v) index <> Some true ->
     set_by_index PARAMETERS index v pm = (Throws invalid_argument, pm)) /\
  (forall index T,
     index < n_parameters PARAMETERS ->
     IsGettableAs PARAMETERS T index <> Some true ->
     get_by_index PARAMETERS T index pm = (Throws invalid_argument, pm)).
Proof.
  intros Hwf.
  assert (forall name v,
     (forall i, name_matches pm name i = true ->
        IsSettableFrom PARAMETERS (deduced v) i <> Some true) ->
     set_by_name PARAMETERS name v pm = (Throws invalid_argument, pm)) as Hset.
  { intros name v Hnone. rewrite set_by_name_resolve by done.
    replace (first_index _ 0 _) with (@None nat); [done|].
    symmetry. apply first_index_None. intros j _.
    destruct (name_matches pm name j) eqn:Hj; [|apply andb_false_r].
    rewrite andb_true_r. apply not_true_is_false.
    rewrite settable_from_true. by apply Hnone. }
  assert (forall name T,
     (forall i, name_matches pm name i = true ->
        IsGettableAs PARAMETERS T i <> Some true) ->
     get_by_name PARAMETERS T name pm = (Throws invalid_argument, pm)) as Hget.
  { intros name T Hnone. rewrite get_by_name_resolve by done.
    replace (first_index _ 0 _) with (@None nat); [done|].
    symmetry. apply first_index_None. intros j _.
    destruct (name_matches pm name j) eqn:Hj; [|apply andb_false_r].
    rewrite andb_true_r. apply not_true_is_false.
    rewrite gettable_as_true. by apply Hnone. }
  repeat split; try done.
  - intros name v Hnone. apply Hset. intros i Hi. by rewrite Hnone in Hi.
  - intros name T Hnone. apply Hget. intros i Hi. by rewrite Hnone in Hi.
  - intros index v Hlt Hno. rewrite set_by_index_resolve.
    rewrite (proj2 (Nat.leb_gt _ _) Hlt).
    destruct (settable_from PARAMETERS v index) eqn:E; [|done].
    by apply settable_from_true in E.
  - intros index T Hlt Hno. rewrite get_by_index_resolve by done.
    rewrite (proj2 (Nat.leb_gt _ _) Hlt).
    destruct (gettable_as PARAMETERS T index) eqn:E; [|done].
    by apply gettable_as_true in E.
Qed.

(** C6: whatever names the slots share, a call by name does what the
    call by compile-time index does at the lowest slot whose stored hash
    is the hash of the name and which passes the type predicate of the
    call: conversion for [set], the same type for [get], none for
    [is_set]. *)
Theorem by_name_acts_on_lowest_match pm name i :
  wf PARAMETERS pm ->
  name_matches pm name i = true ->
  (forall v,
     IsSettableFrom PARAMETERS (deduced v) i = Some true ->
     (forall j, j < i -> name_matches pm name j = true ->
        IsSettableFrom PARAMETERS (deduced v) j <> Some true) ->
     set_by_name PARAMETERS name v pm = set_at PARAMETERS i v pm) /\
  (forall T,
     IsGettableAs PARAMETERS T i = Some true ->
     (forall j, j < i -> name_matches pm name j = true ->
        IsGettableAs PARAMETERS T j <> Some true) ->
     get_by_name PARAMETERS T name pm = get_at PARAMETERS i pm) /\
  ((forall j, j < i -> name_matches pm name j = false) ->
   is_set_by_name PARAMETERS name pm = is_set_at PARAMETERS i pm).
Proof.
  intros Hwf Hname. repeat split.
  - intros v Hset Hlow. by apply set_by_name_lowest.
  - intros T Hget Hlow. by apply get_by_name_lowest.
  - intros Hlow. by apply is_set_by_name_lowest.
Qed.

(** C7: [clear] returns, after it [is_set] is [false] for every slot
    through every overload, and a second [clear] changes nothing. *)
Theorem clear_empties_every_slot pm :
  wf PARAMETERS pm ->
  clear PARAMETERS pm = (Returns tt, cleared PARAMETERS pm) /\
  (forall i, i < n_parameters PARAMETERS ->
     is_set_at PARAMETERS i (cleared PARAMETERS pm) =
       (Returns false, cleared PARAMETERS pm) /\
     is_set_by_index PARAMETERS i (cleared PARAMETERS pm) =
       (Returns false, cleared PARAMETERS pm)) /\
  (forall name i, name_matches pm name i = true ->
     is_set_by_name PARAMETERS name (cleared PARAMETERS pm) =
       (Returns false, cleared PARAMETERS pm)) /\
  (clear PARAMETERS ;; clear PARAMETERS) pm = clear PARAMETERS pm.
Proof.
  intros Hwf.
  pose proof (wf_cleared PARAMETERS pm Hwf) as Hwf'.
  assert (forall i, i < n_parameters PARAMETERS ->
     is_set_at PARAMETERS i (cleared PARAMETERS pm) =
       (Returns false, cleared PARAMETERS pm)) as Hat.
  { intros i Hi. rewrite (is_set_at_spec _ _ i None); [done..|].
    simpl. by apply lookup_replicate_2. }
  split; [by apply clear_spec|]. split; [|split].
  - intros i Hi. split; [by apply Hat|].
    rewrite is_set_by_index_resolve by done.
    rewrite (proj2 (Nat.ltb_lt _ _) Hi). by apply Hat.
  - intros name i Hname. rewrite is_set_by_name_resolve by done.
    destruct (first_index _ 0 _) as [k|] eqn:Hfirst.
    + apply first_index_Some in Hfirst as ([_ Hk] & _ & _). by apply Hat.
    + pose proof (proj1 (first_index_None _ _ _) Hfirst i) as Hno.
      change (name_matches (cleared PARAMETERS pm) name i)
        with (name_matches pm name i) in Hno.
      rewrite Hname in Hno. exfalso.
      pose proof (name_matches_lt PARAMETERS pm name i Hwf Hname).
      assert (true = false) by (apply Hno; lia). done.
  - unfold bind. rewrite clear_spec by done. rewrite clear_spec by done.
    unfold cleared. done.
Qed.

(** C8: [submit] leaves the name hashes and the slots as it found them,
    whether it returns or throws; with a function free of side effects,
    a second [submit] right after the first ends as the first did, and
    both return the function's result when every slot holds a value. *)
Theorem submit_preserves_container {W R} pm (f : list value -> M W R) w :
  wf PARAMETERS pm ->
  (submit PARAMETERS f (pm, w)).2.1 = pm /\
  forall g : list value -> R,
    let first := submit PARAMETERS (pure_function g) (pm, w) in
    let second := submit PARAMETERS (pure_function g) first.2 in
    first.2 = (pm, w) /\ second = first /\
    forall args, m_stored_values pm = Some <$> args ->
                 first.1 = Returns (g args) /\ second.1 = Returns (g args).
Proof.
  intros Hwf. split.
  - rewrite submit_spec by done.
    destruct (forallb has_value (m_stored_values pm)); [|done].
    by destruct (apply_optionals f (m_stored_values pm) w).
  - intros g first second.
    assert (first.2 = (pm, w)) as Hstate.
    { unfold first. rewrite submit_spec by done.
      destruct (forallb has_value (m_stored_values pm)) eqn:Hall; [|done].
      apply forallb_has_value in Hall as [args ->].
      by rewrite apply_optionals_all_set. }
    assert (second = first) as Hsame by (unfold second; by rewrite Hstate).
    split; [done|]. split; [done|]. intros args Hargs.
    rewrite Hsame. unfold first. rewrite submit_spec by done.
    assert (forallb has_value (m_stored_values pm) = true) as ->
      by (apply forallb_has_value; by exists args).
    by rewrite Hargs, apply_optionals_all_set.
Qed.


End Claims.

(** C10: with no parameter types, [submit f] is the call of [f] without
    arguments: it never throws for a missing value, and its result and
    effect are those of [f]. *)
Theorem submit_without_parameters `{Cxx} {W R} pm (f : list value -> M W R) w :
  wf [] pm ->
  construct [] [] = Returns pm /\
  submit [] f (pm, w) = (let '(r, w') := f [] w in (r, (pm, w'))).
Proof.
  intros [Hh Hs]. destruct pm as [hashes stored]. simpl in *.
  apply nil_length_inv in Hh, Hs. subst. split; [done|].
  by rewrite submit_spec.
Qed.

(** ** The claims on the containers of the test suite *)

Section Instances.
Import Sample.
Open Scope string_scope.

Lemma test_map_wf : wf test_parameters test_map.
Proof. by split. Qed.

Lemma partial_map_wf : wf test_parameters partial_map.
Proof. by split. Qed.

Lemma full_map_wf : wf test_parameters full_map.
Proof. by split. Qed.

Lemma shared_name_map_wf : wf shared_name_parameters shared_name_map.
Proof. by split. Qed.

(** The scenario of the test suite: three stores by name, reads through
    the three overloads, an overwrite, and [clear]. *)
Example stored_values_are_read_back :
  (set_by_name test_parameters "myInt" (v_int 3) ;;
   set_by_name test_parameters "enabled" (v_bool true) ;;
   set_by_name test_parameters "name" (v_literal "Homer Simpson") ;;
   a <- get_by_name test_parameters (plain t_int) "myInt" ;;
   b <- get_by_index test_parameters (plain t_bool) 1 ;;
   c <- get_at test_parameters 2 ;;
   set_by_name test_parameters "myInt" (v_int 6) ;;
   d <- get_by_index test_parameters (plain t_int) 0 ;;
   ret [a; b; c; d]) test_map =
  (Returns [v_int 3; v_bool true; v_string "Homer Simpson"; v_int 6], full_map).
Proof. by vm_compute. Qed.

Example cleared_values_are_missing :
  (clear test_parameters ;;
   get_by_name test_parameters (plain t_int) "myInt") full_map =
  (Throws runtime_error, test_map).
Proof. by vm_compute. Qed.

Example fresh_container_is_empty :
  construct test_parameters test_names = Returns test_map /\
  is_set_by_name test_parameters "name" test_map = (Returns false, test_map) /\
  is_set_by_index test_parameters 0 test_map = (Returns false, test_map) /\
  is_set_at test_parameters 1 test_map = (Returns false, test_map).
Proof. repeat split; by vm_compute. Qed.

(** What [set] leaves in a slot is for the assignment to the optional
    to say: [set<0>(std::nullopt)] and [set<0>(std::optional<int>{})]
    empty the [int] slot, [set<0>(std::optional<int>{5})] stores 5, and
    [set("myInt", std::nullopt)] finds no slot that accepts the type. *)
Example assignment_may_empty_the_slot :
  set_at test_parameters 0 v_nullopt full_map =
    (Returns tt, @store cxx 0 None full_map) /\
  set_at test_parameters 0 (v_optional_int None) full_map =
    (Returns tt, @store cxx 0 None full_map) /\
  set_at test_parameters 0 (v_optional_int (Some 5%Z)) full_map =
    (Returns tt, @store cxx 0 (Some (v_int 5)) full_map) /\
  set_by_name test_parameters "myInt" v_nullopt full_map =
    (Throws invalid_argument, full_map) /\
  set_by_name optional_parameters "limit" (v_int 20) optional_map =
    (Returns tt, @store cxx 0 (Some (v_optional_int (Some 20%Z))) optional_map).
Proof. repeat split; by vm_compute. Qed.

Lemma submit_calls_function_once_witness :
  submit test_parameters testfunc (full_map, []) =
    (Returns 7%Z, (full_map, full_values)) /\
  forall log,
    submit test_parameters (logged testfunc) (full_map, (log, [])) =
    (Returns 7%Z, (full_map, ((log ++ [full_values])%list, full_values))).
Proof.
  exact (submit_calls_function_once test_parameters full_map full_values
           testfunc [] full_map_wf eq_refl).
Defined.

Lemma submit_missing_value_witness :
  submit test_parameters testfunc (partial_map, []) =
    (Throws runtime_error, (partial_map, [])) /\
  forall log,
    submit test_parameters (logged testfunc) (partial_map, (log, [])) =
    (Throws runtime_error, (partial_map, (log, []))).
Proof.
  exact (submit_missing_value test_parameters partial_map 2 testfunc []
           partial_map_wf eq_refl).
Defined.



(** C4 at the index 3 of the container of three slots. *)
Lemma index_beyond_last_slot_witness :
  set_by_index test_parameters 3 (v_int 3) test_map =
    (Throws out_of_range, test_map) /\
  set_by_index test_parameters 3 (v_string "three") test_map =
    (Throws out_of_range, test_map) /\
  get_by_index test_parameters (plain t_int) 3 test_map =
    (Throws out_of_range, test_map) /\
  is_set_by_index test_parameters 3 test_map =
    (Throws invalid_argument, test_map).
Proof.
  destruct (index_beyond_last_slot test_parameters test_map 3 test_map_wf)
    as (Hset & Hget & His); [simpl; lia|].
  exact (conj (Hset _) (conj (Hset _) (conj (Hget _) His))).
Defined.

Lemma mismatch_throws_invalid_argument_witness :
  set_by_name test_parameters "not_myInt" (v_int 3) test_map =
    (Throws invalid_argument, test_map) /\
  get_by_name test_parameters (plain t_int) "not_myInt" test_map =
    (Throws invalid_argument, test_map) /\
  set_by_name test_parameters "myInt" (v_string "three") test_map =
    (Throws invalid_argument, test_map) /\
  get_by_name test_parameters (plain t_bool) "myInt" full_map =
    (Throws invalid_argument, full_map) /\
  set_by_index test_parameters 0 (v_string "three") test_map =
    (Throws invalid_argument, test_map) /\
  get_by_index test_parameters (plain t_bool) 0 full_map =
    (Throws invalid_argument, full_map).
Proof.
  destruct (mismatch_throws_invalid_argument test_parameters test_map test_map_wf)
    as (Hset_name & Hget_name & Hset_type & _ & Hset_index & _).
  destruct (mismatch_throws_invalid_argument test_parameters full_map full_map_wf)
    as (_ & _ & _ & Hget_type & _ & Hget_index).
  refine (conj _ (conj _ (conj _ (conj _ (conj _ _))))).
  - apply Hset_name. by intros [|[|[|i]]].
  - apply Hget_name. by intros [|[|[|i]]].
  - apply Hset_type. by intros [|[|[|i]]].
  - apply Hget_type. by intros [|[|[|i]]].
  - apply Hset_index; [simpl; lia | done].
  - apply Hget_index; [simpl; lia | done].
Defined.

(** Three slots named [x]: a [std::string] goes to slot 1, the lowest
    one that accepts it, a read as [std::string] looks at slot 1 (empty)
    and not at slot 2, and [is_set] looks at slot 0. *)
Lemma by_name_acts_on_lowest_match_witness :
  set_by_name shared_name_parameters "x" (v_string "first") shared_name_map =
    (Returns tt, @store cxx 1 (Some (v_string "first")) shared_name_map) /\
  get_by_name shared_name_parameters (plain t_string) "x" shared_name_map =
    (Throws runtime_error, shared_name_map) /\
  is_set_by_name shared_name_parameters "x" shared_name_map =
    (Returns false, shared_name_map).
Proof.
  destruct (by_name_acts_on_lowest_match shared_name_parameters shared_name_map
              "x" 1 shared_name_map_wf eq_refl) as (Hset & Hget & _).
  destruct (by_name_acts_on_lowest_match shared_name_parameters shared_name_map
              "x" 0 shared_name_map_wf eq_refl) as (_ & _ & His).
  refine (conj _ (conj _ _)).
  - rewrite (Hset (v_string "first")); [done | done |].
    intros [|j] Hj; [done | lia].
  - rewrite (Hget (plain t_string)); [done | done |].
    intros [|j] Hj; [done | lia].
  - rewrite His; [done|]. intros j Hj. lia.
Defined.

Lemma clear_empties_every_slot_witness :
  clear test_parameters full_map = (Returns tt, test_map) /\
  (forall i, i < 3 ->
     is_set_at test_parameters i test_map = (Returns false, test_map) /\
     is_set_by_index test_parameters i test_map = (Returns false, test_map)) /\
  (forall name i, name_matches full_map name i = true ->
     is_set_by_name test_parameters name test_map = (Returns false, test_map)) /\
  (clear test_parameters ;; clear test_parameters) full_map =
    clear test_parameters full_map.
Proof.
  exact (clear_empties_every_slot test_parameters full_map full_map_wf).
Defined.

Lemma submit_preserves_container_witness :
  (submit test_parameters testfunc (full_map, [])).2.1 = full_map /\
  (submit test_parameters testfunc (partial_map, [])).2.1 = partial_map /\
  submit test_parameters (pure_function return_4) (full_map, tt) =
    (Returns 4%Z, (full_map, tt)) /\
  submit test_parameters (pure_function return_4)
    (submit test_parameters (pure_function return_4) (full_map, tt)).2 =
    (Returns 4%Z, (full_map, tt)).
Proof.
  destruct (submit_preserves_container test_parameters full_map testfunc []
              full_map_wf) as [Hfull _].
  destruct (submit_preserves_container test_parameters partial_map testfunc []
              partial_map_wf) as [Hpartial _].
  destruct (submit_preserves_container test_parameters full_map
              (pure_function (W := unit) return_4) tt full_map_wf) as [_ Hpure].
  destruct (Hpure return_4) as (Hstate & Hsame & Hresult).
  destruct (Hresult full_values eq_refl) as [Hfirst Hsecond].
  refine (conj Hfull (conj Hpartial (conj _ _))).
  - rewrite (surjective_pairing (submit _ _ _)). by rewrite Hfirst, Hstate.
  - change (submit test_parameters (pure_function return_4)
              (submit test_parameters (pure_function return_4) (full_map, tt)).2)
      with (submit test_parameters (pure_function return_4) (full_map, tt)).
    rewrite (surjective_pairing (submit _ _ _)). by rewrite Hfirst, Hstate.
Defined.



Lemma submit_without_parameters_witness :
  construct [] [] = Returns empty_map /\
  submit [] testfunc (empty_map, [v_int 1]) = (Returns 7%Z, (empty_map, [])).
Proof.
  exact (submit_without_parameters empty_map testfunc [v_int 1]
           (conj eq_refl eq_refl)).
Defined.

End Instances.

(** * Further properties of the header *)

Section Further.
Context `{Cxx} (PARAMETERS : list cpp_type).

(** What [is_set<INDEX>] and [get<INDEX>] return depends on the slot at
    [INDEX] and on nothing else. *)
Lemma is_set_at_outcome pm i :
  (is_set_at PARAMETERS i pm).1 =
  if i <? n_parameters PARAMETERS
  then match m_stored_values pm !! i with
       | Some o => Returns (has_value o)
       | None => IllFormed
       end
  else IllFormed.
Proof.
  unfold is_set_at, bind, std_get.
  destruct (i <? n_parameters PARAMETERS); [|done].
  by destruct (m_stored_values pm !! i).
Qed.

Lemma get_at_outcome pm i :
  (get_at PARAMETERS i pm).1 =
  if i <? n_parameters PARAMETERS
  then match m_stored_values pm !! i with
       | Some (Some x) => Returns x
       | Some None => Throws runtime_error
       | None => IllFormed
       end
  else IllFormed.
Proof.
  unfold get_at, throw_if_no_value_stored_for_index, is_set_at, bind, std_get.
  destruct (i <? n_parameters PARAMETERS); [|done].
  destruct (m_stored_values pm !! i) as [[x|]|] eqn:E; simpl; [|done..].
  by rewrite E.
Qed.

Lemma IsGettableAs_true T i :
  IsGettableAs PARAMETERS T i = Some true <->
  BaseTypeAt PARAMETERS i = Some (remove_cv_ref T).
Proof.
  unfold IsGettableAs.
  destruct (BaseTypeAt PARAMETERS i) as [U|]; simpl; [|done].
  split.
  - intros [= Heq]. apply bool_decide_eq_true in Heq. by rewrite Heq.
  - intros [= <-]. by rewrite bool_decide_eq_true_2.
Qed.

Lemma IsSettableFrom_true v i :
  IsSettableFrom PARAMETERS (deduced v) i = Some true <->
  exists U, BaseTypeAt PARAMETERS i = Some U /\
            is_convertible (type_of v) U = true.
Proof.
  unfold IsSettableFrom. simpl.
  destruct (BaseTypeAt PARAMETERS i) as [U|]; simpl.
  - split; [intros [= ?]; by exists U | by intros (? & [= <-] & ->)].
  - split; [done | by intros (? & ? & _)].
Qed.

(** X1: a container just constructed has as many slots as names were
    given, all of them empty: [is_set] returns [false] through every
    overload, by every name given, and [get] finds no value. *)
Theorem fresh_container_has_no_values names pm :
  construct PARAMETERS names = Returns pm ->
  length names = size PARAMETERS /\
  forall i, i < size PARAMETERS ->
    is_set_at PARAMETERS i pm = (Returns false, pm) /\
    is_set_by_index PARAMETERS i pm = (Returns false, pm) /\
    (forall name, names !! i = Some name ->
       is_set_by_name PARAMETERS name pm = (Returns false, pm)) /\
    get_at PARAMETERS i pm = (Throws runtime_error, pm).
Proof.
  intros Hpm. pose proof (construct_wf _ _ _ Hpm) as Hwf.
  assert (forall k, k < n_parameters PARAMETERS ->
            is_set_at PARAMETERS k pm = (Returns false, pm)) as Hat.
  { intros k Hk. rewrite (is_set_at_spec _ pm k None); [done..|].
    by eapply construct_empty. }
  split.
  { destruct Hwf as [Hh _]. revert Hpm Hh. unfold construct.
    destruct (length names =? n_parameters PARAMETERS) eqn:E; [|done].
    intros _ _. by apply Nat.eqb_eq in E. }
  intros i Hi. unfold size in Hi.
  split; [by apply Hat|]. split; [|split].
  - rewrite is_set_by_index_resolve by done.
    rewrite (proj2 (Nat.ltb_lt _ _) Hi). by apply Hat.
  - intros name Hname. rewrite is_set_by_name_resolve by done.
    destruct (first_index _ 0 _) as [k|] eqn:Hfirst.
    + apply first_index_Some in Hfirst as ([_ Hk] & _ & _). by apply Hat.
    + pose proof (proj1 (first_index_None _ _ _) Hfirst i) as Hno.
      assert (name_matches pm name i = true) as Hyes.
      { apply (construct_name_matches PARAMETERS names); [done|].
        by exists name. }
      rewrite Hno in Hyes by lia. done.
  - apply get_at_empty; [done|]. by eapply construct_empty.
Qed.

(** X2: [get] on a slot that holds no value throws
    [std::runtime_error], through every overload that resolves to the
    slot, and leaves the container as it is. *)
Theorem get_missing_value pm i T :
  wf PARAMETERS pm ->
  m_stored_values pm !! i = Some None ->
  IsGettableAs PARAMETERS T i = Some true ->
  get_at PARAMETERS i pm = (Throws runtime_error, pm) /\
  get_by_index PARAMETERS T i pm = (Throws runtime_error, pm) /\
  forall name,
    name_matches pm name i = true ->
    (forall j, j < i -> name_matches pm name j = true ->
       IsGettableAs PARAMETERS T j <> Some true) ->
    get_by_name PARAMETERS T name pm = (Throws runtime_error, pm).
Proof.
  intros Hwf Hempty Hget.
  assert (i < n_parameters PARAMETERS) as Hi.
  { apply IsGettableAs_true in Hget. by eapply BaseTypeAt_lt. }
  pose proof (get_at_empty PARAMETERS pm i Hi Hempty) as Hat.
  split; [done|]. split.
  - rewrite get_by_index_resolve by done.
    rewrite (proj2 (Nat.leb_gt _ _) Hi).
    by rewrite (proj2 (gettable_as_true PARAMETERS T i) Hget).
  - intros name Hname Hlow.
    by rewrite (get_by_name_lowest PARAMETERS pm name T i).
Qed.

(** X3: at a valid index the run-time overloads do what the
    compile-time ones do: [is_set(i)] is [is_set<i>()], [get<T>(i)] is
    [get<i>()] when [T] is the slot's type, and [set(i, v)] is
    [set<i>(v)] when [v] converts to it. *)
Theorem run_time_index_as_compile_time_index pm i :
  wf PARAMETERS pm ->
  i < size PARAMETERS ->
  is_set_by_index PARAMETERS i pm = is_set_at PARAMETERS i pm /\
  (forall T, IsGettableAs PARAMETERS T i = Some true ->
     get_by_index PARAMETERS T i pm = get_at PARAMETERS i pm) /\
  (forall v, IsSettableFrom PARAMETERS (deduced v) i = Some true ->
     set_by_index PARAMETERS i v pm = set_at PARAMETERS i v pm).
Proof.
  intros Hwf Hi. unfold size in Hi. split; [|split].
  - rewrite is_set_by_index_resolve by done.
    by rewrite (proj2 (Nat.ltb_lt _ _) Hi).
  - intros T Hget. rewrite get_by_index_resolve by done.
    rewrite (proj2 (Nat.leb_gt _ _) Hi).
    by rewrite (proj2 (gettable_as_true PARAMETERS T i) Hget).
  - intros v Hset. rewrite set_by_index_resolve.
    rewrite (proj2 (Nat.leb_gt _ _) Hi).
    by rewrite (proj2 (settable_from_true PARAMETERS v i) Hset).
Qed.

(** X4: [is_set] by name throws [std::invalid_argument] when no slot
    carries the name and otherwise returns whether the lowest slot that
    carries it holds a value, whatever the types of the slots; by index
    it throws [std::invalid_argument] beyond the last slot and otherwise
    returns whether the slot holds a value.  Neither changes the
    container. *)
Theorem is_set_outcomes pm :
  wf PARAMETERS pm ->
  (forall name,
     ((forall i, name_matches pm name i = false) /\
      is_set_by_name PARAMETERS name pm = (Throws invalid_argument, pm)) \/
     (exists i o,
        name_matches pm name i = true /\
        (forall j, j < i -> name_matches pm name j = false) /\
        m_stored_values pm !! i = Some o /\
        is_set_by_name PARAMETERS name pm = (Returns (has_value o), pm))) /\
  (forall index,
     (size PARAMETERS <= index /\
      is_set_by_index PARAMETERS index pm = (Throws invalid_argument, pm)) \/
     (exists o,
        index < size PARAMETERS /\
        m_stored_values pm !! index = Some o /\
        is_set_by_index PARAMETERS index pm = (Returns (has_value o), pm))).
Proof.
  intros Hwf. split.
  - intros name. rewrite is_set_by_name_resolve by done.
    destruct (first_index _ 0 _) as [i|] eqn:Hfirst.
    + right. apply first_index_Some in Hfirst as ([_ Hi] & Hname & Hlow).
      simpl in Hi. destruct (wf_slot PARAMETERS pm i Hwf Hi) as [o Ho].
      exists i, o. split; [done|]. split; [|split; [done|]].
      * intros j Hj. apply Hlow. lia.
      * by apply is_set_at_spec.
    + left. split; [|done]. intros i.
      destruct (decide (i < n_parameters PARAMETERS)) as [Hi|Hi].
      * apply (proj1 (first_index_None _ _ _) Hfirst). lia.
      * destruct (name_matches pm name i) eqn:E; [|done].
        by apply (name_matches_lt PARAMETERS) in E.
  - intros index. rewrite is_set_by_index_resolve by done. unfold size.
    destruct (index <? n_parameters PARAMETERS) eqn:E.
    + right. apply Nat.ltb_lt in E.
      destruct (wf_slot PARAMETERS pm index Hwf E) as [o Ho].
      exists o. split; [done|]. split; [done|]. by apply is_set_at_spec.
    + left. apply Nat.ltb_ge in E. by split.
Qed.

Lemma store_typed pm i U v o :
  slots_typed PARAMETERS pm ->
  BaseTypeAt PARAMETERS i = Some U ->
  optional_assign U v = Some o ->
  slots_typed PARAMETERS (store i o pm).
Proof.
  intros Htyped HU Hassign j x V Hx HV. simpl in Hx.
  destruct (decide (i = j)) as [<-|Hne].
  - destruct (decide (i < length (m_stored_values pm))) as [Hi|Hi].
    + rewrite list_lookup_insert_eq in Hx by done.
      injection Hx as ->. rewrite HU in HV. injection HV as <-.
      by apply (optional_assign_type U v).
    + rewrite list_insert_ge in Hx by lia. by eapply Htyped.
  - rewrite list_lookup_insert_ne in Hx by done. by eapply Htyped.
Qed.

(** A slot that accepts the type of a value is assigned the value: it
    then holds the converted value, or nothing. *)
Lemma set_at_settable pm v i :
  wf PARAMETERS pm ->
  settable_from PARAMETERS v i = true ->
  exists U o,
    BaseTypeAt PARAMETERS i = Some U /\
    is_convertible (type_of v) U = true /\
    optional_assign U v = Some o /\
    (o = Some (convert U v) \/ o = None) /\
    set_at PARAMETERS i v pm = (Returns tt, store i o pm).
Proof.
  intros Hwf Hset. apply settable_from_true, IsSettableFrom_true in Hset.
  destruct Hset as (U & HU & Hconv).
  assert (exists o, optional_assign U v = Some o /\
                    (o = Some (convert U v) \/ o = None)) as (o & Hassign & Ho).
  { destruct (optional_assign_convertible U v Hconv) as [E|E];
      eexists; (split; [exact E|]); auto. }
  exists U, o. repeat (split; [done|]). by apply (set_at_spec PARAMETERS pm i U v).
Qed.

(** The container after a run-time [set]: as before, or with one slot
    assigned. *)
Lemma set_by_name_state pm name v :
  wf PARAMETERS pm ->
  (set_by_name PARAMETERS name v pm).2 = pm \/
  exists i U o, BaseTypeAt PARAMETERS i = Some U /\
                optional_assign U v = Some o /\
                set_by_name PARAMETERS name v pm = (Returns tt, store i o pm).
Proof.
  intros Hwf. rewrite set_by_name_resolve by done.
  destruct (first_index _ 0 _) as [i|] eqn:Hfirst; [right|by left].
  apply first_index_Some in Hfirst as (_ & Hboth & _).
  apply andb_true_iff in Hboth as [Hset _].
  destruct (set_at_settable pm v i Hwf Hset)
    as (U & o & HU & _ & Hassign & _ & Hstore).
  by exists i, U, o.
Qed.

Lemma set_by_index_state pm index v :
  wf PARAMETERS pm ->
  (set_by_index PARAMETERS index v pm).2 = pm \/
  exists U o, BaseTypeAt PARAMETERS index = Some U /\
              optional_assign U v = Some o /\
              set_by_index PARAMETERS index v pm =
                (Returns tt, store index o pm).
Proof.
  intros Hwf. rewrite set_by_index_resolve.
  destruct (n_parameters PARAMETERS <=? index); [by left|].
  destruct (settable_from PARAMETERS v index) eqn:Hset; [|by left].
  right. destruct (set_at_settable pm v index Hwf Hset)
    as (U & o & HU & _ & Hassign & _ & Hstore).
  by exists U, o.
Qed.


(** X6: the run-time overloads of [get] leave the container as it is
    and end in one of the documented ways: [std::invalid_argument],
    [std::runtime_error] ([std::out_of_range] for an index), or the
    value of a slot that carries the name (sits at the index), a value
    of the type asked for.  They never dereference a null pointer or an
    empty optional. *)
Theorem get_outcomes pm T :
  wf PARAMETERS pm ->
  slots_typed PARAMETERS pm ->
  (forall name, exists r,
     get_by_name PARAMETERS T name pm = (r, pm) /\
     (r = Throws invalid_argument \/ r = Throws runtime_error \/
      exists i x,
        r = Returns x /\ name_matches pm name i = true /\
        m_stored_values pm !! i = Some (Some x) /\
        type_of x = remove_cv_ref T)) /\
  (forall index, exists r,
     get_by_index PARAMETERS T index pm = (r, pm) /\
     (r = Throws out_of_range \/ r = Throws invalid_argument \/
      r = Throws runtime_error \/
      exists x,
        r = Returns x /\
        m_stored_values pm !! index = Some (Some x) /\
        type_of x = remove_cv_ref T)).
Proof.
  intros Hwf Htyped.
  assert (forall i, gettable_as PARAMETERS T i = true ->
            get_at PARAMETERS i pm = (Throws runtime_error, pm) \/
            exists x, get_at PARAMETERS i pm = (Returns x, pm) /\
                      m_stored_values pm !! i = Some (Some x) /\
                      type_of x = remove_cv_ref T) as Hat.
  { intros i Hget. apply gettable_as_true, IsGettableAs_true in Hget.
    pose proof (BaseTypeAt_lt _ _ _ Hget) as Hi.
    destruct (wf_slot PARAMETERS pm i Hwf Hi) as [[x|] Ho].
    - right. exists x. split; [by apply get_at_value|]. split; [done|].
      by apply (Htyped i).
    - left. by apply get_at_empty. }
  split.
  - intros name. rewrite get_by_name_resolve by done.
    destruct (first_index _ 0 _) as [i|] eqn:Hfirst; [|by eexists; eauto].
    apply first_index_Some in Hfirst as (_ & Hboth & _).
    apply andb_true_iff in Hboth as [Hget Hname].
    destruct (Hat i Hget) as [->|(x & -> & Hx & Hty)].
    + eexists. split; [done|]. right. by left.
    + eexists. split; [done|]. right. right. by exists i, x.
  - intros index. rewrite get_by_index_resolve by done.
    destruct (n_parameters PARAMETERS <=? index); [by eexists; eauto|].
    destruct (gettable_as PARAMETERS T index) eqn:Hget.
    + destruct (Hat index Hget) as [->|(x & -> & Hx & Hty)].
      * eexists. split; [done|]. right. right. by left.
      * eexists. split; [done|]. right. right. right. by exists x.
    + eexists. split; [done|]. right. by left.
Qed.

(** X7: [set], through each overload and whatever its outcome, and
    [clear] keep the name hashes, the number of slots, and the type of
    every stored value. *)
Theorem mutators_keep_invariants pm :
  wf PARAMETERS pm ->
  slots_typed PARAMETERS pm ->
  let kept pm' :=
    wf PARAMETERS pm' /\ slots_typed PARAMETERS pm' /\
    m_parameter_name_hashes pm' = m_parameter_name_hashes pm in
  (forall name v, kept (set_by_name PARAMETERS name v pm).2) /\
  (forall index v, kept (set_by_index PARAMETERS index v pm).2) /\
  (forall INDEX v, kept (set_at PARAMETERS INDEX v pm).2) /\
  kept (clear PARAMETERS pm).2.
Proof.
  intros Hwf Htyped kept.
  assert (kept pm) as Hpm by done.
  assert (forall i U v o, BaseTypeAt PARAMETERS i = Some U ->
            optional_assign U v = Some o ->
            kept (store i o pm)) as Hstore.
  { intros i U v o HU Hassign. split; [by apply wf_store|].
    split; [by apply (store_typed pm i U v) | done]. }
  split; [|split; [|split]].
  - intros name v.
    destruct (set_by_name_state pm name v Hwf)
      as [->|(i & U & o & HU & Hassign & ->)]; [done|].
    by apply (Hstore i U v).
  - intros index v.
    destruct (set_by_index_state pm index v Hwf)
      as [->|(U & o & HU & Hassign & ->)]; [done|].
    by apply (Hstore index U v).
  - intros INDEX v. unfold set_at.
    destruct (BaseTypeAt PARAMETERS INDEX) as [U|] eqn:HU; [|done].
    destruct (optional_assign U v) as [o|] eqn:Hassign; [|done].
    unfold std_get_assign.
    destruct (INDEX <? length (m_stored_values pm)); [|done].
    by apply (Hstore INDEX U v).
  - rewrite clear_spec by done. split; [by apply wf_cleared|].
    split; [|done]. intros i x U Hx _. simpl in Hx.
    apply lookup_replicate in Hx as [[=] _].
Qed.

(** X8: a [set] that returns has changed at most one slot: every
    other slot holds what it held, and [is_set] and [get] answer for it
    as before. *)
Theorem set_changes_one_slot pm pm' v :
  wf PARAMETERS pm ->
  (exists name, set_by_name PARAMETERS name v pm = (Returns tt, pm')) \/
  (exists index, set_by_index PARAMETERS index v pm = (Returns tt, pm')) \/
  (exists INDEX, set_at PARAMETERS INDEX v pm = (Returns tt, pm')) ->
  exists i, forall j, j <> i ->
    m_stored_values pm' !! j = m_stored_values pm !! j /\
    (is_set_at PARAMETERS j pm').1 = (is_set_at PARAMETERS j pm).1 /\
    (get_at PARAMETERS j pm').1 = (get_at PARAMETERS j pm).1.
Proof.
  intros Hwf Hset.
  assert (exists i o, pm' = store i o pm) as (i & o & ->).
  { destruct Hset as [[name Hset]|[[index Hset]|[INDEX Hset]]].
    - destruct (set_by_name_state pm name v Hwf)
        as [Hsame|(i & U & o & _ & _ & Hstore)].
      + rewrite Hset in Hsame. simpl in Hsame. subst pm'.
        exists (length (m_stored_values pm)), None. unfold store.
        rewrite list_insert_ge by lia. by destruct pm.
      + rewrite Hstore in Hset. injection Hset as <-. by eexists _, _.
    - destruct (set_by_index_state pm index v Hwf)
        as [Hsame|(U & o & _ & _ & Hstore)].
      + rewrite Hset in Hsame. simpl in Hsame. subst pm'.
        exists (length (m_stored_values pm)), None. unfold store.
        rewrite list_insert_ge by lia. by destruct pm.
      + rewrite Hstore in Hset. injection Hset as <-. by eexists _, _.
    - revert Hset. unfold set_at.
      destruct (BaseTypeAt PARAMETERS INDEX) as [U|]; [|done].
      destruct (optional_assign U v) as [o|]; [|done].
      unfold std_get_assign.
      destruct (INDEX <? length (m_stored_values pm)); [|done].
      intros [= <-]. by eexists _, _. }
  exists i. intros j Hne.
  assert (m_stored_values (store i o pm) !! j = m_stored_values pm !! j) as Hj
    by (simpl; by apply list_lookup_insert_ne).
  split; [done|]. by rewrite !is_set_at_outcome, !get_at_outcome, Hj.
Qed.



(** X11: after [clear], [submit] on a container with at least one
    parameter throws [std::runtime_error] without calling the function. *)
Theorem submit_after_clear_throws {W R} pm (f : list value -> M W R) w :
  wf PARAMETERS pm ->
  0 < size PARAMETERS ->
  (on_fst (clear PARAMETERS) ;; submit PARAMETERS f) (pm, w) =
  (Throws runtime_error, (cleared PARAMETERS pm, w)).
Proof.
  intros Hwf Hpos. unfold size in Hpos. unfold bind at 1. unfold on_fst.
  rewrite clear_spec by done.
  rewrite submit_spec by by apply wf_cleared.
  rewrite (forallb_has_value_empty _ 0); [done|].
  simpl. by apply lookup_replicate_2.
Qed.

(** X12: [clear] forgets the values and keeps the names: a [set] by
    name right after it finds the slot, and [get] by name reads back
    the value that the assignment stored. *)
Theorem names_survive_clear pm i U v x name T :
  wf PARAMETERS pm ->
  BaseTypeAt PARAMETERS i = Some U ->
  is_convertible (type_of v) U = true ->
  optional_assign U v = Some (Some x) ->
  name_matches pm name i = true ->
  (forall j, j <> i -> name_matches pm name j = false) ->
  remove_cv_ref T = U ->
  (clear PARAMETERS ;;
   set_by_name PARAMETERS name v ;;
   get_by_name PARAMETERS T name) pm =
  (Returns x, store i (Some x) (cleared PARAMETERS pm)).
Proof.
  intros Hwf HU Hconv Hassign Hname Hother HT.
  destruct (set_and_read PARAMETERS (cleared PARAMETERS pm) i U v x name T)
    as ((Hset & _) & _ & (Hget & _)); try done; [by apply wf_cleared|].
  unfold bind. rewrite clear_spec by done. by rewrite Hset, Hget.
Qed.

(** X13: with every slot engaged, the values that [submit] hands to the
    function have, position by position, the declared parameter types
    without their qualifiers. *)
Theorem submit_arguments_have_declared_types {W R} pm args
    (f : list value -> M W R) w :
  wf PARAMETERS pm ->
  slots_typed PARAMETERS pm ->
  m_stored_values pm = Some <$> args ->
  Forall2 (fun x P => type_of x = remove_cv_ref P) args PARAMETERS /\
  submit PARAMETERS f (pm, w) = (let '(r, w') := f args w in (r, (pm, w'))).
Proof.
  intros Hwf Htyped Hargs. split.
  - apply Forall2_same_length_lookup_2.
    + destruct Hwf as [_ Hs]. by rewrite Hargs, length_fmap in Hs.
    + intros i x P Hx HP. apply (Htyped i).
      * by rewrite Hargs, list_lookup_fmap, Hx.
      * unfold BaseTypeAt. by rewrite HP.
  - rewrite submit_spec by done.
    assert (forallb has_value (m_stored_values pm) = true) as ->
      by (apply forallb_has_value; by exists args).
    by rewrite Hargs, apply_optionals_all_set.
Qed.

End Further.

(** ** The utilities on their own *)

(** X14: [static_for<First, Last>(f)] is the calls [f(First)], ...,
    [f(Last - 1)] one after the other, none at all when
    [Last <= First], and it stops at the first call that does not
    return; a body that appends its index to a log leaves the indices in
    increasing order. *)
Theorem static_for_calls_in_order {St} First Last (f : nat -> M St unit) :
  (forall s,
     static_for First Last f s =
     foldr (fun i k => f i ;; k) (ret tt) (seq First (Last - First)) s) /\
  (forall log : list nat,
     static_for First Last (fun i => l <- get_state ;; put_state (l ++ [i])) log =
     (Returns tt, log ++ seq First (Last - First))).
Proof.
  split.
  - remember (Last - First) as n eqn:Hn.
    revert First Hn. induction n as [|n IH]; intros First Hn s.
    + by rewrite static_for_empty by lia.
    + rewrite static_for_step by lia. simpl. unfold bind.
      destruct (f First s) as [[[]| | |] s']; try done.
      apply IH. lia.
  - remember (Last - First) as n eqn:Hn.
    revert First Hn. induction n as [|n IH]; intros First Hn log.
    + rewrite static_for_empty by lia. simpl. by rewrite app_nil_r.
    + rewrite static_for_step by lia.
      unfold bind at 1. unfold bind at 1. unfold get_state, put_state.
      rewrite IH by lia. simpl. by rewrite <- app_assoc.
Qed.

(** ** The parameterised tests, for every input *)

Section TestSuiteProperties.
Import Sample TestSuite.

(** X16: in the fixture of the test suite, whatever the three input
    values and whichever of the three ways [Set] and [Get] address the
    slots, [Get] after [Set] leaves in [m_output] the tuple [m_input];
    after a second [Set] with other inputs it leaves the later tuple. *)
Theorem fixture_set_get_round_trip input later set_method get_method :
  (Set_ set_method ;; Get get_method) (fixture input) =
    (Returns tt,
     {| m_param_map := filled input; m_input := input; m_output := input;
        m_is_set_output := replicate n_params false |}) /\
  (Set_ set_method ;; assign_input later ;; Set_ set_method ;; Get get_method)
    (fixture input) =
    (Returns tt,
     {| m_param_map := filled later; m_input := later; m_output := later;
        m_is_set_output := replicate n_params false |}).
Proof.
  destruct input as [a b s], later as [a' b' s'].
  destruct set_method, get_method; split; by vm_compute.
Qed.

(** X17: in the fixture, [Get] throws [std::runtime_error] and assigns
    nothing to [m_output], whichever way it addresses the slots, both
    before any [Set] and after [Set] followed by [clear]. *)
Theorem fixture_get_without_values input set_method get_method :
  Get get_method (fixture input) = (Throws runtime_error, fixture input) /\
  (Set_ set_method ;; on_param_map (clear fixture_parameters) ;; Get get_method)
    (fixture input) =
    (Throws runtime_error, fixture input).
Proof.
  destruct input as [a b s].
  destruct set_method, get_method; split; by vm_compute.
Qed.

(** X18: in the fixture, [IsSet] fills [m_is_set_output] with [false]
    before any [Set], with [true] after one [Set] and after two, and
    with [false] again after [clear] and after a second [clear],
    whichever ways [Set] and [IsSet] address the slots. *)
Theorem fixture_is_set_follows_set_and_clear input set_method get_method :
  let set_output :=
    {| m_param_map := filled input; m_input := input;
       m_output := m_output (fixture input);
       m_is_set_output := replicate n_params true |} in
  IsSet get_method (fixture input) = (Returns tt, fixture input) /\
  (Set_ set_method ;; IsSet get_method) (fixture input) =
    (Returns tt, set_output) /\
  (Set_ set_method ;; IsSet get_method) set_output = (Returns tt, set_output) /\
  (on_param_map (clear fixture_parameters) ;; IsSet get_method) set_output =
    (Returns tt, fixture input) /\
  (on_param_map (clear fixture_parameters) ;; IsSet get_method) (fixture input) =
    (Returns tt, fixture input).
Proof.
  destruct input as [a b s].
  destruct set_method, get_method; repeat split; by vm_compute.
Qed.

End TestSuiteProperties.

(** ** The further properties on the containers of the test suite *)

Section FurtherInstances.
Import Sample.
Open Scope string_scope.

Lemma full_map_typed : slots_typed test_parameters full_map.
Proof.
  intros [|[|[|i]]] x U Hx HU; try done;
    injection Hx as <-; by injection HU as <-.
Qed.

Lemma fresh_container_has_no_values_witness :
  length test_names = size test_parameters /\
  forall i, i < size test_parameters ->
    is_set_at test_parameters i test_map = (Returns false, test_map) /\
    is_set_by_index test_parameters i test_map = (Returns false, test_map) /\
    (forall name, test_names !! i = Some name ->
       is_set_by_name test_parameters name test_map = (Returns false, test_map)) /\
    get_at test_parameters i test_map = (Throws runtime_error, test_map).
Proof.
  exact (fresh_container_has_no_values test_parameters test_names test_map eq_refl).
Defined.

Lemma get_missing_value_witness :
  get_at test_parameters 2 partial_map = (Throws runtime_error, partial_map) /\
  get_by_index test_parameters (plain t_string) 2 partial_map =
    (Throws runtime_error, partial_map) /\
  get_by_name test_parameters (plain t_string) "name" partial_map =
    (Throws runtime_error, partial_map).
Proof.
  destruct (get_missing_value test_parameters partial_map 2 (plain t_string)
              partial_map_wf eq_refl eq_refl) as (Hat & Hindex & Hname).
  refine (conj Hat (conj Hindex _)).
  apply Hname; [done|]. by intros [|[|j]] Hj Hj'; [..|lia].
Defined.

Lemma run_time_index_as_compile_time_index_witness :
  is_set_by_index test_parameters 0 full_map = is_set_at test_parameters 0 full_map /\
  get_by_index test_parameters (plain t_int) 0 full_map =
    get_at test_parameters 0 full_map /\
  set_by_index test_parameters 0 (v_bool true) full_map =
    set_at test_parameters 0 (v_bool true) full_map.
Proof.
  destruct (run_time_index_as_compile_time_index test_parameters full_map 0
              full_map_wf) as (His & Hget & Hset); [simpl; lia|].
  exact (conj His (conj (Hget (plain t_int) eq_refl)
                        (Hset (v_bool true) eq_refl))).
Defined.

Lemma is_set_outcomes_witness :
  (((forall i, name_matches partial_map "not_name" i = false) /\
    is_set_by_name test_parameters "not_name" partial_map =
      (Throws invalid_argument, partial_map)) \/
   (exists i o,
      name_matches partial_map "not_name" i = true /\
      (forall j, j < i -> name_matches partial_map "not_name" j = false) /\
      m_stored_values partial_map !! i = Some o /\
      is_set_by_name test_parameters "not_name" partial_map =
        (Returns (has_value o), partial_map))) /\
  ((size test_parameters <= 1 /\
    is_set_by_index test_parameters 1 partial_map =
      (Throws invalid_argument, partial_map)) \/
   (exists o,
      1 < size test_parameters /\
      m_stored_values partial_map !! 1 = Some o /\
      is_set_by_index test_parameters 1 partial_map =
        (Returns (has_value o), partial_map))).
Proof.
  destruct (is_set_outcomes test_parameters partial_map partial_map_wf)
    as [Hname Hindex].
  exact (conj (Hname "not_name") (Hindex 1)).
Defined.


Lemma get_outcomes_witness :
  (exists r,
     get_by_name test_parameters (plain t_int) "myInt" full_map = (r, full_map) /\
     (r = Throws invalid_argument \/ r = Throws runtime_error \/
      exists i x,
        r = Returns x /\ name_matches full_map "myInt" i = true /\
        m_stored_values full_map !! i = Some (Some x) /\
        type_of x = remove_cv_ref (plain t_int))) /\
  (exists r,
     get_by_index test_parameters (plain t_int) 1 full_map = (r, full_map) /\
     (r = Throws out_of_range \/ r = Throws invalid_argument \/
      r = Throws runtime_error \/
      exists x,
        r = Returns x /\
        m_stored_values full_map !! 1 = Some (Some x) /\
        type_of x = remove_cv_ref (plain t_int))).
Proof.
  destruct (get_outcomes test_parameters full_map (plain t_int)
              full_map_wf full_map_typed) as [Hname Hindex].
  exact (conj (Hname "myInt") (Hindex 1)).
Defined.

Lemma mutators_keep_invariants_witness :
  let kept pm' :=
    wf test_parameters pm' /\ slots_typed test_parameters pm' /\
    m_parameter_name_hashes pm' = m_parameter_name_hashes full_map in
  kept (set_by_name test_parameters "enabled" (v_int 0) full_map).2 /\
  kept (set_by_index test_parameters 7 (v_int 0) full_map).2 /\
  kept (set_at test_parameters 2 (v_literal "Marge Simpson") full_map).2 /\
  kept (clear test_parameters full_map).2.
Proof.
  destruct (mutators_keep_invariants test_parameters full_map
              full_map_wf full_map_typed) as (Hname & Hindex & Hat & Hclear).
  exact (conj (Hname "enabled" (v_int 0))
           (conj (Hindex 7 (v_int 0))
              (conj (Hat 2 (v_literal "Marge Simpson")) Hclear))).
Defined.

Lemma set_changes_one_slot_witness :
  exists i, forall j, j <> i ->
    m_stored_values (@store cxx 1 (Some (v_bool false)) full_map) !! j =
      m_stored_values full_map !! j /\
    (is_set_at test_parameters j (@store cxx 1 (Some (v_bool false)) full_map)).1 =
      (is_set_at test_parameters j full_map).1 /\
    (get_at test_parameters j (@store cxx 1 (Some (v_bool false)) full_map)).1 =
      (get_at test_parameters j full_map).1.
Proof.
  apply (set_changes_one_slot test_parameters full_map _ (v_int 0) full_map_wf).
  left. by exists "enabled".
Defined.



Lemma submit_after_clear_throws_witness :
  (on_fst (clear test_parameters) ;; submit test_parameters testfunc)
    (full_map, []) =
  (Throws runtime_error, (test_map, [])).
Proof.
  apply (submit_after_clear_throws test_parameters full_map testfunc []
           full_map_wf).
  simpl. lia.
Defined.

Lemma names_survive_clear_witness :
  (clear test_parameters ;;
   set_by_name test_parameters "name" (v_literal "Marge Simpson") ;;
   get_by_name test_parameters (plain t_string) "name") full_map =
  (Returns (v_string "Marge Simpson"),
   @store cxx 2 (Some (v_string "Marge Simpson")) test_map).
Proof.
  apply (names_survive_clear test_parameters full_map 2 t_string
           (v_literal "Marge Simpson") (v_string "Marge Simpson") "name"
           (plain t_string) full_map_wf);
    try reflexivity.
  intros [|[|[|j]]] Hj; try reflexivity. by destruct Hj.
Defined.

Lemma submit_arguments_have_declared_types_witness :
  Forall2 (fun x P => type_of x = remove_cv_ref P) full_values test_parameters /\
  submit test_parameters testfunc (full_map, []) =
    (Returns 7%Z, (full_map, full_values)).
Proof.
  exact (submit_arguments_have_declared_types test_parameters full_map
           full_values testfunc [] full_map_wf full_map_typed eq_refl).
Defined.

End FurtherInstances.
